(** * DynArrayReducer: a shallow embedding of the array reducer facade

    The development follows [src/array/DynArrayReducer.ts].  JavaScript
    values are a small inductive type, arrays live in a heap addressed by
    references (so that an array held by a caller and the array installed
    in the reducer can be the same object), and the methods of the class
    are programs of a state-and-exception monad over the heap, the private
    fields of the reducer and a trace of the subscriber calls. *)

From stdpp Require Import base option list gmap strings sorting.
From Stdlib Require Import ZArith Lia.

Local Open Scope Z_scope.
Local Open Scope nat_scope.

(** ** JavaScript values *)

(** References to arrays, identities of functions. *)
Abbreviation loc := positive.
Abbreviation FnId := nat.

#[local] Set Warnings "-register-all".

Inductive Val : Type :=
| VUndef                                  (* undefined / void 0 *)
| VNull                                   (* null *)
| VBool (b : bool)
| VNum (n : Z)
| VStr (s : string)
| VFun (f : FnId)                         (* a function, known by identity *)
| VArr (l : loc)                          (* a reference to an array of the heap *)
| VIter (items : list Val)                (* an iterable object that is no array: a Set, a generator *)
| VObj (fields : list (string * Val))     (* a plain object with own enumerable keys *)
| VView (l : loc).                        (* an iterable object, no array, that reads the array
                                             at [l] whenever it is iterated: another reducer
                                             over that array, a wrapper of its values() *)

Inductive TypeOf := TUndefined | TObject | TBoolean | TNumber | TString | TFunction.

Definition typeof (v : Val) : TypeOf :=
  match v with
  | VUndef => TUndefined
  | VNull => TObject
  | VBool _ => TBoolean
  | VNum _ => TNumber
  | VStr _ => TString
  | VFun _ => TFunction
  | VArr _ | VIter _ | VObj _ | VView _ => TObject
  end.

Definition typeof_eqb (a b : TypeOf) : bool :=
  match a, b with
  | TUndefined, TUndefined | TObject, TObject | TBoolean, TBoolean
  | TNumber, TNumber | TString, TString | TFunction, TFunction => true
  | _, _ => false
  end.

(** [if (v)]: the falsy values are undefined, null, false, 0 and the empty string. *)
Definition truthy (v : Val) : bool :=
  match v with
  | VUndef | VNull => false
  | VBool b => b
  | VNum n => negb (n =? 0)%Z
  | VStr s => negb (String.eqb s "")
  | VFun _ | VArr _ | VIter _ | VObj _ | VView _ => true
  end.

Definition is_undefined (v : Val) : bool :=
  match v with VUndef => true | _ => false end.

Definition is_null (v : Val) : bool :=
  match v with VNull => true | _ => false end.

(** [Array.isArray(v)] *)
Definition Array_isArray (v : Val) : bool :=
  match v with VArr _ => true | _ => false end.

(** Own key lookup of a plain object: [key in obj] and [obj.key]. *)
Fixpoint assoc (key : string) (fields : list (string * Val)) : option Val :=
  match fields with
  | [] => None
  | (k, v) :: rest => if String.eqb k key then Some v else assoc key rest
  end.

(** [v.key]; a missing key reads as undefined. Only read on objects here. *)
Definition get_field (key : string) (v : Val) : Val :=
  match v with
  | VObj fields => default VUndef (assoc key fields)
  | _ => VUndef
  end.

(** ** Outcomes, the heap and the monad *)

Inductive Error := TypeError (msg : string) | RangeError (msg : string).

Inductive Outcome (A : Type) : Type :=
| Ok (a : A)
| Throw (e : Error).
Arguments Ok {A} a.
Arguments Throw {A} e.

Definition is_throw {A} (o : Outcome A) : bool :=
  match o with Throw _ => true | Ok _ => false end.

(** The [in] operator throws a TypeError on a primitive right operand. *)
Definition has_iterator_key (v : Val) : Outcome bool :=
  match v with
  | VUndef | VNull | VBool _ | VNum _ | VStr _ =>
      Throw (TypeError "Cannot use 'in' operator on a primitive")
  | VFun _ => Ok false
  | VArr _ | VIter _ | VView _ => Ok true
  | VObj _ => Ok false
  end.

Definition has_key (key : string) (v : Val) : Outcome bool :=
  match v with
  | VUndef | VNull | VBool _ | VNum _ | VStr _ =>
      Throw (TypeError "Cannot use 'in' operator on a primitive")
  | VObj fields => Ok (if assoc key fields is Some _ then true else false)
  | VFun _ | VArr _ | VIter _ | VView _ => Ok false
  end.

Abbreviation Heap := (gmap loc (list Val)).

(** The contents of the array behind a reference. *)
Definition deref (h : Heap) (l : loc) : list Val :=
  default [] (h !! l).

(** [array[i]]: reading past the end gives undefined. *)
Definition nth_val (xs : list Val) (i : nat) : Val := default VUndef (xs !! i).

(** Iterating a string yields its characters, each a string. *)
Fixpoint chars (s : string) : list Val :=
  match s with
  | EmptyString => []
  | String c rest => VStr (String c EmptyString) :: chars rest
  end.

(** The items the spread [...v] produces; a value without an iterator
    throws. *)
Definition spread (h : Heap) (v : Val) : Outcome (list Val) :=
  match v with
  | VArr l | VView l => Ok (deref h l)
  | VIter items => Ok items
  | VStr s => Ok (chars s)
  | _ => Throw (TypeError "value is not iterable")
  end.

(** The private fields of a [DynArrayReducer].  The filter and sort
    adapters and the indexer are objects of their own in the source; their
    state is kept here next to the fields of the facade. *)
Record Reducer : Type := mkReducer {
  array0 : option loc;          (* #array[0]: null, or the host array *)
  filters : list FnId;          (* #filtersAdapter.filters *)
  compareFn : option FnId;      (* #sortAdapter.compareFn, null when absent *)
  index : option (list nat);    (* the index of the indexer, null when inactive *)
  index_reversed : bool;        (* #index.reversed *)
  reversed : bool;              (* #reversed *)
  subscriptions : list FnId     (* #subscriptions *)
}.

(** The field initialisers of the class. *)
Definition initial_fields : Reducer :=
  {| array0 := None; filters := []; compareFn := None; index := None;
     index_reversed := false; reversed := false; subscriptions := [] |}.

Definition set_array0 (a : option loc) (r : Reducer) : Reducer :=
  mkReducer a (filters r) (compareFn r) (index r) (index_reversed r) (reversed r)
    (subscriptions r).
Definition set_filters (fs : list FnId) (r : Reducer) : Reducer :=
  mkReducer (array0 r) fs (compareFn r) (index r) (index_reversed r) (reversed r)
    (subscriptions r).
Definition set_compareFn (c : option FnId) (r : Reducer) : Reducer :=
  mkReducer (array0 r) (filters r) c (index r) (index_reversed r) (reversed r)
    (subscriptions r).
Definition set_index (i : option (list nat)) (r : Reducer) : Reducer :=
  mkReducer (array0 r) (filters r) (compareFn r) i (index_reversed r) (reversed r)
    (subscriptions r).
Definition set_index_reversed (b : bool) (r : Reducer) : Reducer :=
  mkReducer (array0 r) (filters r) (compareFn r) (index r) b (reversed r)
    (subscriptions r).
Definition set_reversed_field (b : bool) (r : Reducer) : Reducer :=
  mkReducer (array0 r) (filters r) (compareFn r) (index r) (index_reversed r) b
    (subscriptions r).
Definition set_subscriptions (s : list FnId) (r : Reducer) : Reducer :=
  mkReducer (array0 r) (filters r) (compareFn r) (index r) (index_reversed r)
    (reversed r) s.

(** A call [handler(this)]: which handler, and the reducer it was given,
    as it was at the call. *)
Record Event : Type := mkEvent { ev_handler : FnId; ev_view : Reducer }.

Record World : Type := mkWorld {
  heap : Heap;                  (* every array, the host array among them *)
  this : Reducer;
  trace : list Event            (* the handler calls so far, oldest first *)
}.

Definition with_heap (h : Heap) (w : World) : World := mkWorld h (this w) (trace w).
Definition with_this (r : Reducer) (w : World) : World := mkWorld (heap w) r (trace w).
Definition with_trace (t : list Event) (w : World) : World := mkWorld (heap w) (this w) t.

(** Programs: they read and write the world and end with a value or a
    thrown error.  A throw keeps the world as it was when it was raised. *)
Definition M (A : Type) : Type := World -> Outcome A * World.

#[export] Instance M_ret : MRet M := fun A a w => (Ok a, w).
#[export] Instance M_bind : MBind M := fun A B f m w =>
  match m w with
  | (Ok a, w') => f a w'
  | (Throw e, w') => (Throw e, w')
  end.

Definition throw {A} (e : Error) : M A := fun w => (Throw e, w).
Definition lift {A} (o : Outcome A) : M A := fun w => (o, w).
Definition get : M World := fun w => (Ok w, w).
Definition modify (f : World -> World) : M unit := fun w => (Ok (), f w).
Definition modify_this (f : Reducer -> Reducer) : M unit :=
  modify (fun w => with_this (f (this w)) w).
Definition when (b : bool) (m : M unit) : M unit := if b then m else mret ().

(** [new Array], filled with [items]: a reference no array has yet. *)
Definition alloc (items : list Val) : M loc := fun w =>
  let l := fresh (dom (heap w)) in
  (Ok l, with_heap (<[l := items]> (heap w)) w).

(** The host array's contents, nothing for null. *)
Definition host_items (w : World) : list Val :=
  match array0 (this w) with
  | Some l => deref (heap w) l
  | None => []
  end.

(** ** Stable sorting of positions *)

Section Sorting.
Context {A : Type}.
Variable cmp : A -> A -> Z.

(** [x] goes in front of the first entry it does not sort after. *)
Fixpoint insert_by (x : A) (l : list A) : list A :=
  match l with
  | [] => [x]
  | y :: rest =>
      if (cmp x y <=? 0)%Z then x :: y :: rest else y :: insert_by x rest
  end.

Definition stable_sort (l : list A) : list A := foldr insert_by [] l.
End Sorting.

(** ** The reducer *)

Section DynArrayReducer.

(** [DynReducerUtils.isIterable] comes from the common module, which is
    not part of the sources at hand: it is a parameter here. *)
Variable isIterable : Val -> bool.

(** What the client's functions compute: a filter to a truth value, a
    comparator to a number ordering its arguments by sign. *)
Variable applyFilter : FnId -> Val -> bool.
Variable applyCompare : FnId -> Val -> Val -> Z.

(** The number of arguments one call takes at most.  The engine sets it;
    a call [f(...items)] with more items throws a RangeError once the
    items have been read. *)
Variable maxArguments : nat.

(** The arguments of a call [f(...v)]. *)
Definition spread_arguments (h : Heap) (v : Val) : Outcome (list Val) :=
  match spread h v with
  | Ok items =>
      if maxArguments <? length items
      then Throw (RangeError "Maximum call stack size exceeded")
      else Ok items
  | Throw e => Throw e
  end.

(** *** The indexer *)

(** Modelled from the spec: [Indexer.isActive] is not in the sources at
    hand.  The index is active whenever at least one filter or a
    comparator is registered on the view. *)
Definition Indexer_isActive (r : Reducer) : bool :=
  negb (length (filters r) =? 0) || (if compareFn r is Some _ then true else false).

(** Modelled from the spec: [IndexerAPI.length] is not in the sources at
    hand.  It is the length of the virtual ordering. *)
Definition IndexerAPI_length (r : Reducer) : nat :=
  length (default [] (index r)).

(** All filters accept the element; evaluation stops at the first
    refusal. *)
Definition accepts (fs : list FnId) (v : Val) : bool :=
  forallb (fun f => applyFilter f v) fs.

(** The backing positions 0..n-1 in order, those kept whose element all
    filters accept. *)
Definition retained (xs : list Val) (fs : list FnId) : list nat :=
  List.filter (fun i => accepts fs (nth_val xs i)) (seq 0 (length xs)).

(** The comparator on positions: it compares the elements there. *)
Definition compare_at (c : FnId) (xs : list Val) (i j : nat) : Z :=
  applyCompare c (nth_val xs i) (nth_val xs j).

(** Modelled from the spec: the rebuild of [Indexer.update] is not in the
    sources at hand.  Enumerate the backing positions in original order,
    retain a position iff all active filters accept its element, and,
    with a comparator, sort the retained positions stably by their
    elements. *)
Definition rebuild (xs : list Val) (fs : list FnId) (c : option FnId) : list nat :=
  match c with
  | None => retained xs fs
  | Some c => stable_sort (compare_at c xs) (retained xs fs)
  end.

(** A subscriber call.  Handlers are client code: a call is recorded with
    the reducer it received, and leaves the reducer as it is. *)
Definition call_handler (h : FnId) : M unit :=
  modify (fun w => with_trace (trace w ++ [mkEvent h (this w)]) w).

(** [#updateSubscribers()]: the loop reads the list and its length anew
    at every turn; [turns] bounds the number of turns. *)
Fixpoint updateSubscribers_from (cntr : nat) (turns : nat) : M unit :=
  match turns with
  | 0 => mret ()
  | S turns' =>
      w ← get;
      match subscriptions (this w) !! cntr with
      | Some handler =>
          call_handler handler ≫= fun _ => updateSubscribers_from (S cntr) turns'
      | None => mret ()
      end
  end.

Definition updateSubscribers : M unit :=
  w ← get; updateSubscribers_from 0 (length (subscriptions (this w))).

(** Modelled from the spec: [Indexer.update(force)] is not in the sources
    at hand.  With no filter and no comparator the ordering becomes
    inactive, otherwise it is rebuilt from scratch; subscribers are
    notified in either case and for either value of [force]. *)
Definition Indexer_update (force : bool) : M unit :=
  w ← get;
  let r := this w in
  let idx := if Indexer_isActive r
             then Some (rebuild (host_items w) (filters r) (compareFn r))
             else None in
  modify_this (set_index idx) ≫= fun _ =>
  updateSubscribers.

(** Modelled from the spec: the iteration of [IndexerAPI] is not in the
    sources at hand.  It yields the positions of the stored ordering,
    forward, or backward when the indexer's reversed flag is set;
    nothing when the ordering is inactive. *)
Definition IndexerAPI_iter (r : Reducer) : list nat :=
  let positions := default [] (index r) in
  if index_reversed r then rev positions else positions.

(** Modelled from the spec: [AdapterFilters.add] is not in the sources at
    hand.  The entries are appended in argument order and a recompute is
    requested; an entry is a predicate or an object holding one under
    [filter].  The priority of an entry only orders the evaluation and is
    left out. *)
Definition filter_entry (v : Val) : Outcome FnId :=
  match v with
  | VFun f => Ok f
  | VObj fields =>
      match assoc "filter" fields with
      | Some (VFun f) => Ok f
      | _ => Throw (TypeError "AdapterFilters error: 'filter' attribute is not a function.")
      end
  | _ => Throw (TypeError "AdapterFilters error: 'filter' is not a function or object.")
  end.

Fixpoint filter_entries (vs : list Val) : Outcome (list FnId) :=
  match vs with
  | [] => Ok []
  | v :: rest =>
      match filter_entry v, filter_entries rest with
      | Ok f, Ok fs => Ok (f :: fs)
      | Throw e, _ => Throw e
      | _, Throw e => Throw e
      end
  end.

Definition AdapterFilters_add (entries : list Val) : M unit :=
  fs ← lift (filter_entries entries);
  modify_this (fun r => set_filters (filters r ++ fs) r) ≫= fun _ =>
  Indexer_update false.

(** Modelled from the spec: [AdapterSort.set] is not in the sources at
    hand.  It installs or replaces the comparator, null or absence
    deactivates sorting, anything else is refused; a recompute follows. *)
Definition AdapterSort_set (v : Val) : M unit :=
  c ← match v with
      | VFun f => mret (Some f)
      | VNull | VUndef => mret None
      | _ => throw (TypeError "AdapterSort error: 'compareFn' is not a function.")
      end;
  modify_this (set_compareFn c) ≫= fun _ =>
  Indexer_update false.

(** *** The facade, [DynArrayReducer.ts] *)

(** Lines 112-116 and 232: an array is used as the host array, any other
    iterable is copied into a new array. *)
Definition install (dataIterable : Val) : M unit :=
  match dataIterable with
  | VArr l => modify_this (set_array0 (Some l))
  | _ =>
      w ← get;
      items ← lift (spread (heap w) dataIterable);
      l ← alloc items;
      modify_this (set_array0 (Some l))
  end.

(** [a || b] on the outcomes of two [in] tests, the second evaluated only
    when the first is false. *)
Definition or_else (a : M bool) (b : M bool) : M bool :=
  x ← a; if x : bool then mret true else b.

(** The attributes of a [DataDynArray] argument, lines 80-109. *)
Definition read_config (data : Val) : M (Val * Val * Val) :=
  if negb (is_undefined (get_field "data" data)) && negb (isIterable (get_field "data" data))
  then throw (TypeError "DynArrayReducer error (DataDynArray): 'data' attribute is not iterable.")
  else
    let dataIterable := get_field "data" data in
    filters ← (if negb (is_undefined (get_field "filters" data))
               then if isIterable (get_field "filters" data)
                    then mret (get_field "filters" data)
                    else throw (TypeError "DynArrayReducer error (DataDynArray): 'filters' attribute is not iterable.")
               else mret VUndef);
    sort ← (if negb (is_undefined (get_field "sort" data))
            then if typeof_eqb (typeof (get_field "sort" data)) TFunction
                 then mret (get_field "sort" data)
                 else throw (TypeError "DynArrayReducer error (DataDynArray): 'sort' attribute is not a function.")
            else mret VUndef);
    mret (dataIterable, filters, sort).

(** The constructor body, run on the field initialisers. *)
Definition constructor (data : Val) : M unit :=
  if is_null data
  then throw (TypeError "DynArrayReducer error: 'data' is not iterable.")
  else if negb (is_undefined data) && negb (typeof_eqb (typeof data) TObject)
          && negb (isIterable data)
  then throw (TypeError "DynArrayReducer error: 'data' is not iterable.")
  else
    hasIterator ← (if negb (is_undefined data) then lift (has_iterator_key data)
                   else mret false);
    '(dataIterable, filters, sort) ←
      (if hasIterator : bool then mret (data, VUndef, VUndef)
       else
         isConfig ← (if negb (is_undefined data)
                     then or_else (lift (has_key "data" data))
                            (or_else (lift (has_key "filters" data))
                                     (lift (has_key "sort" data)))
                     else mret false);
         if isConfig : bool then read_config data
         else mret (VUndef, VUndef, VUndef));
    when (truthy dataIterable) (install dataIterable) ≫= fun _ =>
    when (truthy filters)
         (w ← get; entries ← lift (spread_arguments (heap w) filters);
          AdapterFilters_add entries) ≫= fun _ =>
    when (truthy sort) (AdapterSort_set sort).

(** [new DynArrayReducer(data)] in a heap. *)
Definition new_DynArrayReducer (h : Heap) (data : Val) : Outcome unit * World :=
  constructor data (mkWorld h initial_fields []).

(** [get data()] *)
Definition get_data (w : World) : option loc := array0 (this w).

(** [get length()] *)
Definition get_length (w : World) : nat :=
  let array := array0 (this w) in
  if Indexer_isActive (this w) then IndexerAPI_length (this w)
  else match array with
       | Some l => length (deref (heap w) l)
       | None => 0
       end.

(** [get reversed()] *)
Definition get_reversed (w : World) : bool := reversed (this w).

(** [set reversed(reversed)] *)
Definition set_reversed (v : Val) : M unit :=
  match v with
  | VBool b =>
      modify_this (set_reversed_field b) ≫= fun _ =>
      modify_this (set_index_reversed b) ≫= fun _ =>
      Indexer_update true
  | _ => throw (TypeError "DynArrayReducer.reversed error: 'reversed' is not a boolean.")
  end.

(** [setData(data, replace = false)]; an undefined second argument takes
    the default. *)
Definition setData (data : Val) (replace : Val) : M unit :=
  let replace := if is_undefined replace then VBool false else replace in
  if negb (is_null data) && negb (isIterable data)
  then throw (TypeError "DynArrayReducer.setData error: 'data' is not iterable.")
  else
    match replace with
    | VBool replace =>
        w ← get;
        match array0 (this w) with
        | Some array =>
            if replace
            then when (truthy data) (install data)
            else
              if truthy data
              then
                (* array.length = 0 *)
                modify (fun w => with_heap (<[array := []]> (heap w)) w) ≫= fun _ =>
                (* array.push(...data): the items are the arguments of one call *)
                w ← get;
                items ← lift (spread_arguments (heap w) data);
                modify (fun w => with_heap (<[array := deref (heap w) array ++ items]> (heap w)) w)
              else modify_this (set_array0 None)
        | None => when (truthy data) (install data)
        end ≫= fun _ =>
        Indexer_update true
    | _ => throw (TypeError "DynArrayReducer.setData error: 'replace' is not a boolean.")
    end.

(** [findIndex((sub) => sub === handler)], -1 when there is none. *)
Fixpoint findIndex_from (handler : FnId) (subs : list FnId) (i : Z) : Z :=
  match subs with
  | [] => (-1)%Z
  | sub :: rest => if sub =? handler then i else findIndex_from handler rest (i + 1)%Z
  end.

Definition findIndex (handler : FnId) (subs : list FnId) : Z :=
  findIndex_from handler subs 0%Z.

(** [splice(index, 1)] *)
Definition splice1 (i : nat) (subs : list FnId) : list FnId :=
  take i subs ++ drop (S i) subs.

(** The function [subscribe] returns. *)
Definition unsubscribe (handler : FnId) : M unit :=
  w ← get;
  let index := findIndex handler (subscriptions (this w)) in
  when (0 <=? index)%Z
       (modify_this (fun r => set_subscriptions (splice1 (Z.to_nat index) (subscriptions r)) r)).

(** [subscribe(handler)] *)
Definition subscribe (handler : FnId) : M (M unit) :=
  modify_this (fun r => set_subscriptions (subscriptions r ++ [handler]) r) ≫= fun _ =>
  call_handler handler ≫= fun _ =>
  mret (unsubscribe handler).

(** The loops of the iterator when the index is inactive. *)
Fixpoint yield_down (array : list Val) (cntr : nat) : list Val :=
  match cntr with
  | 0 => []
  | S cntr' => nth_val array cntr' :: yield_down array cntr'
  end.

Fixpoint yield_up (array : list Val) (cntr : nat) (steps : nat) : list Val :=
  match steps with
  | 0 => []
  | S steps' => nth_val array cntr :: yield_up array (S cntr) steps'
  end.

(** [*[Symbol.iterator]()]: everything one pass yields. *)
Definition iterator (w : World) : list Val :=
  match array0 (this w) with
  | None => []
  | Some l =>
      let array := deref (heap w) l in
      if length array =? 0 then []
      else if Indexer_isActive (this w)
      then (fun entry => nth_val array entry) <$> IndexerAPI_iter (this w)
      else if get_reversed w
      then yield_down array (length array)
      else yield_up array 0 (length array)
  end.

End DynArrayReducer.

(** * The vocabulary of the properties *)

(** [a] stands somewhere in front of [b] in [l]. *)
Definition precedes {A} (l : list A) (a b : A) : Prop :=
  ∃ l1 l2 l3, l = l1 ++ a :: l2 ++ b :: l3.

Section Ordering.
Context {A : Type}.
Variable cmp : A -> A -> Z.

(** A comparator that orders the entries satisfying [P] consistently:
    any two are comparable, and not sorting after is transitive. *)
Definition consistent_on (P : A → Prop) : Prop :=
  (∀ a b, P a → P b → (cmp a b <= 0)%Z ∨ (cmp b a <= 0)%Z) ∧
  (∀ a b c, P a → P b → P c →
     (cmp a b <= 0)%Z → (cmp b c <= 0)%Z → (cmp a c <= 0)%Z).

Definition sorted_by (l : list A) : Prop :=
  StronglySorted (fun a b => (cmp a b <= 0)%Z) l.
End Ordering.

Section Recompute.
Variable applyFilter : FnId -> Val -> bool.
Variable applyCompare : FnId -> Val -> Val -> Z.

(** The ordering a recompute stores for the state [w]. *)
Definition recomputed (w : World) : option (list nat) :=
  if Indexer_isActive (this w)
  then Some (rebuild applyFilter applyCompare (host_items w)
               (filters (this w)) (compareFn (this w)))
  else None.
End Recompute.

(** One forward pass of the iterator, as the stored ordering and the
    backing array give it. *)
Definition forward_pass (h : Heap) (r : Reducer) : list Val :=
  match array0 r with
  | None => []
  | Some l =>
      if length (deref h l) =? 0 then []
      else if Indexer_isActive r
      then (fun entry => nth_val (deref h l) entry) <$> default [] (index r)
      else deref h l
  end.

(** How often [h] was called in a stretch of the trace. *)
Definition calls_of (h : FnId) (events : list Event) : nat :=
  length (List.filter (fun e => ev_handler e =? h) events).

(** How often [h] is registered in a subscriber list. *)
Definition registrations (h : FnId) (subs : list FnId) : nat :=
  length (List.filter (fun g => g =? h) subs).

(** The subscriber list without the registrations of [h]. *)
Definition without (h : FnId) (subs : list FnId) : list FnId :=
  List.filter (fun g => negb (g =? h)) subs.

(** [n] calls of the unsubscribe function of [h], one after the other. *)
Fixpoint unsubscribe_times (h : FnId) (n : nat) (w : World) : World :=
  match n with
  | 0 => w
  | S n' => unsubscribe_times h n' (unsubscribe h w).2
  end.

Section Sync.
Variable applyFilter : FnId -> Val -> bool.
Variable applyCompare : FnId -> Val -> Val -> Z.
Variable maxArguments : nat.

(** The state the calls of the facade leave behind: the reversed flag of
    the facade and that of the indexer agree, and the stored ordering is
    the one a recompute gives for the data, filters and comparator in
    place. *)
Definition in_sync (w : World) : Prop :=
  index_reversed (this w) = reversed (this w) ∧
  index (this w) = recomputed applyFilter applyCompare w.

(** The elements all filters of the view accept, in storage order. *)
Definition visible (w : World) : list Val :=
  List.filter (accepts applyFilter (filters (this w))) (host_items w).

(** The constructor from line 112 on, once the argument has been read
    into data, filters and sort. *)
Definition constructor_tail (dataIterable filters sort : Val) : M unit :=
  when (truthy dataIterable) (install dataIterable) ≫= fun _ =>
  when (truthy filters)
       (w ← get; entries ← lift (spread_arguments maxArguments (heap w) filters);
        AdapterFilters_add applyFilter applyCompare entries) ≫= fun _ =>
  when (truthy sort) (AdapterSort_set applyFilter applyCompare sort).
End Sync.

(** ** Sample data *)

Module Fixture.

(** An instance of the parameter: the objects that carry an iterator. *)
Definition isIterableObject (v : Val) : bool :=
  match v with
  | VArr _ | VIter _ | VView _ => true
  | _ => false
  end.

(** The bound on the arguments of a call in the sample runs: small, so
    that a call over the bound can be written out. *)
Definition engineLimit : nat := 8.

(** Filter 0 accepts the even numbers, filter 1 the numbers above 4. *)
Definition sampleFilter (f : FnId) (v : Val) : bool :=
  match f, v with
  | 0, VNum n => Z.even n
  | 1, VNum n => (4 <? n)%Z
  | _, _ => false
  end.

(** The sort key of an element: a number itself, an object's [k]. *)
Definition key (v : Val) : Z :=
  match v with
  | VNum n => n
  | VObj fields => if assoc "k" fields is Some (VNum n) then n else 0%Z
  | _ => 0%Z
  end.

(** Every comparator of the samples orders by the key. *)
Definition sampleCompare (c : FnId) (a b : Val) : Z := (key a - key b)%Z.

Definition one_to_ten : list Val := VNum <$> [1; 2; 3; 4; 5; 6; 7; 8; 9; 10]%Z.

Definition row (k : Z) (v : string) : Val := VObj [("k", VNum k); ("v", VStr v)].

Definition rows : list Val := [row 1 "a"; row 1 "b"; row 0 "c"].

(** A reducer over the array [1, 2, 3] at reference 1, nothing registered. *)
Definition w123 : World :=
  mkWorld {[ 1%positive := [VNum 1; VNum 2; VNum 3] ]}
    (set_array0 (Some 1%positive) initial_fields) [].

(** The same with filter 0 registered and the ordering computed. *)
Definition w123_even : World :=
  mkWorld {[ 1%positive := [VNum 1; VNum 2; VNum 3] ]}
    (set_index (Some [1]) (set_filters [0] (set_array0 (Some 1%positive) initial_fields))) [].

End Fixture.

(** ** More sample data *)

Module Cases.
Import Fixture.

(** An iterable check that lets every object through, also one whose
    iteration throws. *)
Definition isIterableLoose (v : Val) : bool :=
  typeof_eqb (typeof v) TObject && negb (is_null v).

(** The reducer over [1, 2, 3] with handlers 3, 5 and again 3 subscribed. *)
Definition w123_subs : World :=
  with_this (set_subscriptions [3; 5; 3] (this w123)) w123.

(** A reducer over [3, 1, 2] with comparator 0 registered and the
    ordering computed. *)
Definition w312_sorted : World :=
  mkWorld {[ 1%positive := [VNum 3; VNum 1; VNum 2] ]}
    (set_index (Some [1; 2; 0])
       (set_compareFn (Some 0) (set_array0 (Some 1%positive) initial_fields))) [].

(** A configuration object with an array under [data]. *)
Definition config_data : Val := VObj [("data", VArr 1%positive)].

(** A configuration object whose [sort] attribute is a number. *)
Definition config_bad_sort : Val := VObj [("data", VArr 1%positive); ("sort", VNum 1)].

End Cases.

(** Unfolds the operations of the monad in a goal. *)
Ltac unfold_monad :=
  unfold mbind, mret, M_bind, M_ret, when, throw, lift, get, modify_this, modify in *.

(** * Properties *)

(** ** The stable sort *)


Section SortingFacts.
Context {A : Type}.
Variable cmp : A -> A -> Z.

Lemma precedes_cons (x a b : A) (l : list A) :
  precedes l a b → precedes (x :: l) a b.
Proof.
  intros (l1 & l2 & l3 & ->). by exists (x :: l1), l2, l3.
Qed.

Lemma precedes_head (a b : A) (l : list A) : b ∈ l → precedes (a :: l) a b.
Proof.
  intros (l2 & l3 & ->)%list_elem_of_split. by exists [], l2, l3.
Qed.

Lemma precedes_inv (x a b : A) (l : list A) :
  precedes (x :: l) a b → (x = a ∧ b ∈ l) ∨ precedes l a b.
Proof.
  intros (l1 & l2 & l3 & Heq). destruct l1 as [|y l1]; simplify_eq/=.
  - left. split; [done|]. set_solver.
  - right. by exists l1, l2, l3.
Qed.

Lemma insert_by_perm (x : A) (l : list A) : insert_by cmp x l ≡ₚ x :: l.
Proof.
  induction l as [|y l IH]; simpl; [done|].
  case_match; [done|]. by rewrite IH, Permutation_swap.
Qed.

Lemma stable_sort_perm (l : list A) : stable_sort cmp l ≡ₚ l.
Proof.
  induction l as [|x l IH]; simpl; [done|].
  by rewrite insert_by_perm, IH.
Qed.

Lemma insert_by_keeps_order (x a b : A) (l : list A) :
  precedes l a b → precedes (insert_by cmp x l) a b.
Proof.
  induction l as [|y l IH]; simpl; intros Hp.
  - destruct Hp as (l1 & l2 & l3 & Heq). by destruct l1.
  - case_match; [by apply precedes_cons|].
    apply precedes_inv in Hp as [[-> Hb]|Hp].
    + apply precedes_head. rewrite insert_by_perm. set_solver.
    + by apply precedes_cons, IH.
Qed.

(** The entry inserted lands in front of every entry it does not sort
    after. *)
Lemma insert_by_in_front (x b : A) (l : list A) :
  b ∈ l → (cmp x b <= 0)%Z → precedes (insert_by cmp x l) x b.
Proof.
  induction l as [|y l IH]; simpl; intros Hb Hle; [by apply elem_of_nil in Hb|].
  case_match eqn:Hxy; [by apply precedes_head|].
  apply Z.leb_gt in Hxy.
  apply elem_of_cons in Hb as [->|Hb]; [lia|].
  by apply precedes_cons, IH.
Qed.

(** Stability: an entry in front of one it does not sort after stays in
    front of it. *)
Lemma stable_sort_stable (l : list A) (a b : A) :
  precedes l a b → (cmp a b <= 0)%Z → precedes (stable_sort cmp l) a b.
Proof.
  induction l as [|x l IH]; simpl; intros Hp Hle.
  - destruct Hp as (l1 & l2 & l3 & Heq). by destruct l1.
  - apply precedes_inv in Hp as [[-> Hb]|Hp].
    + apply insert_by_in_front; [|done]. by rewrite stable_sort_perm.
    + by apply insert_by_keeps_order, IH.
Qed.


Lemma insert_by_sorted (P : A → Prop) (x : A) (l : list A) :
  consistent_on cmp P → P x → Forall P l →
  sorted_by cmp l → sorted_by cmp (insert_by cmp x l).
Proof.
  intros [Htot Htrans] Hx HP Hs. induction Hs as [|y l Hs IH Hy]; simpl.
  - repeat constructor.
  - apply Forall_cons in HP as [Py HP].
    case_match eqn:Hxy.
    + apply Z.leb_le in Hxy. constructor; [by constructor|].
      constructor; [done|].
      rewrite Forall_forall in Hy, HP. apply Forall_forall.
      intros z Hz. eapply (Htrans x y z); eauto.
    + apply Z.leb_gt in Hxy. constructor; [by apply IH|].
      rewrite insert_by_perm. constructor; [|done].
      destruct (Htot x y Hx Py); [lia|done].
Qed.

Lemma stable_sort_sorted (P : A → Prop) (l : list A) :
  consistent_on cmp P → Forall P l → sorted_by cmp (stable_sort cmp l).
Proof.
  intros Hc. induction l as [|x l IH]; simpl; intros HP; [constructor|].
  apply Forall_cons in HP as [Px HP].
  eapply insert_by_sorted; eauto.
  by rewrite stable_sort_perm.
Qed.
End SortingFacts.

(** ** The rebuild of the virtual ordering *)

Lemma increasing_precedes (l : list nat) (a b : nat) :
  StronglySorted lt l → a ∈ l → b ∈ l → a < b → precedes l a b.
Proof.
  induction 1 as [|x l Hs IH Hx]; intros Ha Hb Hlt; [by apply elem_of_nil in Ha|].
  rewrite Forall_forall in Hx.
  apply elem_of_cons in Ha as [->|Ha].
  - apply elem_of_cons in Hb as [->|Hb]; [lia|]. by apply precedes_head.
  - apply elem_of_cons in Hb as [->|Hb].
    + specialize (Hx _ Ha). lia.
    + by apply precedes_cons, IH.
Qed.

Lemma filter_increasing (p : nat → bool) (l : list nat) :
  StronglySorted lt l → StronglySorted lt (List.filter p l).
Proof.
  induction 1 as [|x l Hs IH Hx]; simpl; [constructor|].
  destruct (p x); [|done]. constructor; [done|].
  rewrite Forall_forall in Hx. apply Forall_forall.
  intros y [Hy _]%list_elem_of_In%filter_In. by apply Hx, list_elem_of_In.
Qed.

Lemma seq_increasing (start len : nat) : StronglySorted lt (seq start len).
Proof.
  revert start. induction len as [|len IH]; intros start; simpl; constructor; [done|].
  apply Forall_forall. intros y [? ?]%elem_of_seq. lia.
Qed.

Lemma increasing_NoDup (l : list nat) : StronglySorted lt l → NoDup l.
Proof.
  induction 1 as [|x l Hs IH Hx]; constructor; [|done].
  rewrite Forall_forall in Hx. intros Hin. specialize (Hx _ Hin). lia.
Qed.

Section RebuildFacts.
Variable applyFilter : FnId -> Val -> bool.
Variable applyCompare : FnId -> Val -> Val -> Z.

Lemma accepts_spec (fs : list FnId) (v : Val) :
  accepts applyFilter fs v = true ↔ ∀ f, f ∈ fs → applyFilter f v = true.
Proof.
  unfold accepts. rewrite forallb_forall.
  split; intros H f Hf; apply H; by apply list_elem_of_In.
Qed.

Lemma elem_of_retained (xs : list Val) (fs : list FnId) (i : nat) :
  i ∈ retained applyFilter xs fs ↔
  i < length xs ∧ ∀ f, f ∈ fs → applyFilter f (nth_val xs i) = true.
Proof.
  unfold retained.
  rewrite list_elem_of_In, filter_In, <- list_elem_of_In, elem_of_seq, accepts_spec.
  intuition lia.
Qed.

Lemma retained_increasing (xs : list Val) (fs : list FnId) :
  StronglySorted lt (retained applyFilter xs fs).
Proof. apply filter_increasing, seq_increasing. Qed.

Lemma rebuild_perm (xs : list Val) (fs : list FnId) (c : option FnId) :
  rebuild applyFilter applyCompare xs fs c ≡ₚ retained applyFilter xs fs.
Proof. destruct c; simpl; [apply stable_sort_perm|done]. Qed.

Lemma rebuild_in_range (xs : list Val) (fs : list FnId) (c : option FnId) :
  Forall (fun i => i < length xs) (rebuild applyFilter applyCompare xs fs c).
Proof.
  apply Forall_forall. intros i Hi.
  rewrite rebuild_perm in Hi. by apply elem_of_retained in Hi as [? _].
Qed.
End RebuildFacts.

(** ** Running programs *)


(** The loop over the subscribers from position [length pre] on: the
    handlers left are called in order, each with the reducer as it is. *)
Lemma updateSubscribers_from_run (pre rest : list FnId) (w : World) :
  subscriptions (this w) = pre ++ rest →
  updateSubscribers_from (length pre) (length rest) w =
  (Ok (), with_trace (trace w ++ ((fun h => mkEvent h (this w)) <$> rest)) w).
Proof.
  revert pre w. induction rest as [|h rest IH]; intros pre [hp r t] Hs; simpl in *.
  - by rewrite app_nil_r.
  - unfold_monad. simpl. rewrite Hs, list_lookup_middle by done.
    unfold call_handler. unfold_monad. simpl.
    specialize (IH (pre ++ [h]) (mkWorld hp r (t ++ [mkEvent h r]))).
    rewrite length_app, Nat.add_1_r in IH. simpl in IH.
    unfold with_trace in *. simpl in *.
    rewrite IH by (by rewrite <- app_assoc).
    by rewrite <- app_assoc.
Qed.

Lemma updateSubscribers_run (w : World) :
  updateSubscribers w =
  (Ok (), with_trace (trace w ++ ((fun h => mkEvent h (this w)) <$> subscriptions (this w))) w).
Proof.
  unfold updateSubscribers. unfold_monad.
  by apply (updateSubscribers_from_run [] (subscriptions (this w)) w).
Qed.

Section IndexerFacts.
Variable applyFilter : FnId -> Val -> bool.
Variable applyCompare : FnId -> Val -> Val -> Z.


Lemma Indexer_update_run (force : bool) (w : World) :
  Indexer_update applyFilter applyCompare force w =
  (Ok (),
   let r := set_index (recomputed applyFilter applyCompare w) (this w) in
   mkWorld (heap w) r (trace w ++ ((fun h => mkEvent h r) <$> subscriptions r))).
Proof.
  unfold Indexer_update. unfold_monad. rewrite updateSubscribers_run.
  by destruct w.
Qed.
(** C1. A recompute of an active index stores the ordering built as
    follows: the backing positions 0..n-1 are enumerated in original order
    and a position is retained iff every active filter accepts the element
    there, each position at most once; without a comparator the retained
    positions stay in original order; with a comparator they are sorted by
    their elements (for a comparator that orders the elements
    consistently) and two retained positions whose elements compare equal
    keep their original relative order. *)
Theorem rebuild_filters_then_sorts_stably
    (xs : list Val) (fs : list FnId) (c : option FnId) :
  let idx := rebuild applyFilter applyCompare xs fs c in
  (∀ w force, host_items w = xs → filters (this w) = fs → compareFn (this w) = c →
     Indexer_isActive (this w) = true →
     index (this (Indexer_update applyFilter applyCompare force w).2) = Some idx) ∧
  (∀ i, i ∈ idx ↔
        i < length xs ∧ ∀ f, f ∈ fs → applyFilter f (nth_val xs i) = true) ∧
  NoDup idx ∧
  match c with
  | None => StronglySorted lt idx
  | Some cf =>
      idx ≡ₚ retained applyFilter xs fs ∧
      (∀ i j, i ∈ idx → j ∈ idx → i < j →
              compare_at applyCompare cf xs i j = 0%Z → precedes idx i j) ∧
      (consistent_on (compare_at applyCompare cf xs) (fun i => i < length xs) →
       sorted_by (compare_at applyCompare cf xs) idx)
  end.
Proof.
  intros idx. subst idx. split_and!.
  - intros w force <- <- <- Hact. rewrite Indexer_update_run. simpl.
    unfold recomputed. by rewrite Hact.
  - intros i. by rewrite rebuild_perm, elem_of_retained.
  - rewrite rebuild_perm. apply increasing_NoDup, retained_increasing.
  - destruct c as [cf|]; simpl; [|apply retained_increasing].
    split; [apply stable_sort_perm|split].
    + intros i j Hi Hj Hlt Heq. rewrite stable_sort_perm in Hi, Hj.
      apply stable_sort_stable; [|lia].
      apply increasing_precedes; auto using retained_increasing.
    + intros Hc. eapply stable_sort_sorted; [done|].
      apply (rebuild_in_range applyFilter applyCompare xs fs None).
Qed.
End IndexerFacts.

(** ** Length and iteration *)

Lemma nth_val_app_r (pre xs : list Val) (i : nat) :
  nth_val (pre ++ xs) (length pre + i) = nth_val xs i.
Proof. unfold nth_val. by rewrite lookup_app_r, Nat.add_comm, Nat.add_sub by lia. Qed.

Lemma yield_up_app (pre xs : list Val) :
  yield_up (pre ++ xs) (length pre) (length xs) = xs.
Proof.
  revert pre. induction xs as [|x xs IH]; intros pre; simpl; [done|].
  f_equal.
  - unfold nth_val. by rewrite list_lookup_middle.
  - specialize (IH (pre ++ [x])).
    rewrite <- app_assoc, length_app in IH. simpl in IH.
    by rewrite Nat.add_1_r in IH.
Qed.

Lemma yield_up_all (array : list Val) : yield_up array 0 (length array) = array.
Proof. apply (yield_up_app [] array). Qed.

Lemma yield_down_app (xs post : list Val) :
  yield_down (xs ++ post) (length xs) = rev xs.
Proof.
  revert post. induction xs as [|x xs IH] using rev_ind; intros post; [done|].
  rewrite length_app, Nat.add_1_r, rev_unit. simpl.
  rewrite <- app_assoc. simpl. f_equal; [|apply IH].
  unfold nth_val. by rewrite list_lookup_middle.
Qed.

Lemma yield_down_all (array : list Val) :
  yield_down array (length array) = rev array.
Proof. rewrite <- (app_nil_r array) at 1. apply yield_down_app. Qed.

Lemma length_zero_nil {A} (l : list A) : (length l =? 0) = true → l = [].
Proof. intros H%Nat.eqb_eq. by destruct l. Qed.

Section ViewFacts.
Variable applyFilter : FnId -> Val -> bool.
Variable applyCompare : FnId -> Val -> Val -> Z.

Lemma inactive_iff (r : Reducer) :
  Indexer_isActive r = false ↔ filters r = [] ∧ compareFn r = None.
Proof.
  unfold Indexer_isActive.
  destruct (filters r), (compareFn r); simpl; split; try done; by intros [? ?].
Qed.

(** C5. The length getter returns the length of the virtual ordering when
    the index is active, otherwise the length of the backing array, and 0
    when the backing store is absent; after a recompute an absent store
    gives 0 whether or not the index is active. *)
Theorem get_length_cases (w : World) :
  (Indexer_isActive (this w) = true →
     get_length w = length (default [] (index (this w)))) ∧
  (Indexer_isActive (this w) = false →
     ∀ l, array0 (this w) = Some l → get_length w = length (deref (heap w) l)) ∧
  (Indexer_isActive (this w) = false →
     array0 (this w) = None → get_length w = 0) ∧
  (∀ force, array0 (this w) = None →
     get_length (Indexer_update applyFilter applyCompare force w).2 = 0).
Proof.
  unfold get_length. repeat split.
  - by intros ->.
  - by intros -> l ->.
  - by intros -> ->.
  - intros force Hnone. rewrite Indexer_update_run. simpl.
    unfold recomputed, host_items, IndexerAPI_length. rewrite Hnone. simpl.
    change (Indexer_isActive (set_index ?i (this w))) with (Indexer_isActive (this w)).
    destruct (Indexer_isActive (this w)); simpl; [|done].
    by destruct (compareFn (this w)).
Qed.

(** C6. With no filter and no comparator registered, one pass of the
    iterator yields the backing array's elements in storage order when
    the reversed flag is false and in reverse storage order when it is
    true, and the length of the view is the length of the backing
    array. *)
Theorem iterator_inactive (w : World) :
  filters (this w) = [] → compareFn (this w) = None →
  iterator w = (if reversed (this w) then rev (host_items w) else host_items w) ∧
  get_length w = length (host_items w).
Proof.
  intros Hf Hc.
  assert (Indexer_isActive (this w) = false) as Hin by by apply inactive_iff.
  unfold iterator, get_length, host_items, get_reversed. rewrite Hin.
  destruct (array0 (this w)) as [l|]; [|by destruct (reversed (this w))].
  split; [|done].
  destruct (length (deref (heap w) l) =? 0) eqn:Hlen.
  - apply length_zero_nil in Hlen. rewrite Hlen. by destruct (reversed (this w)).
  - destruct (reversed (this w)); [apply yield_down_all|apply yield_up_all].
Qed.

Lemma set_reversed_run (b : bool) (w : World) :
  set_reversed applyFilter applyCompare (VBool b) w =
  (Ok (),
   let r := set_index (recomputed applyFilter applyCompare w)
              (set_index_reversed b (set_reversed_field b (this w))) in
   mkWorld (heap w) r (trace w ++ ((fun h => mkEvent h r) <$> subscriptions r))).
Proof.
  unfold set_reversed. unfold_monad. rewrite Indexer_update_run. by destruct w.
Qed.


Lemma iterator_direction (h : Heap) (r : Reducer) (t : list Event) (b : bool) :
  index_reversed r = b → reversed r = b →
  iterator (mkWorld h r t) = if b then rev (forward_pass h r) else forward_pass h r.
Proof.
  intros Hi Hr. unfold iterator, forward_pass, get_reversed, IndexerAPI_iter. simpl.
  rewrite Hi, Hr.
  destruct (array0 r) as [l|]; [|by destruct b].
  destruct (length (deref h l) =? 0); [by destruct b|].
  destruct (Indexer_isActive r), b; try done.
  - rewrite !rev_alt. apply fmap_reverse.
  - apply yield_down_all.
  - apply yield_up_all.
Qed.

(** C7. Setting the reversed flag changes the direction of the traversal
    only: the stored ordering after [reversed = true] and after
    [reversed = false] is the same recomputed ordering (the one already
    stored, when that was up to date), backing store, heap, filters and
    comparator are as before, and one pass with the flag set yields the
    reverse of one pass with the flag cleared. *)
Theorem reversed_flips_direction_only (w : World) :
  let wt := (set_reversed applyFilter applyCompare (VBool true) w).2 in
  let wf := (set_reversed applyFilter applyCompare (VBool false) w).2 in
  iterator wt = rev (iterator wf) ∧
  index (this wt) = index (this wf) ∧
  (index (this w) = recomputed applyFilter applyCompare w →
     index (this wt) = index (this w)) ∧
  (heap wt = heap w ∧ heap wf = heap w) ∧
  (array0 (this wt) = array0 (this w) ∧ array0 (this wf) = array0 (this w)) ∧
  (filters (this wt) = filters (this w) ∧ filters (this wf) = filters (this w)) ∧
  (compareFn (this wt) = compareFn (this w) ∧ compareFn (this wf) = compareFn (this w)) ∧
  (reversed (this wt) = true ∧ reversed (this wf) = false).
Proof.
  intros wt wf. subst wt wf. rewrite !set_reversed_run. simpl.
  repeat split; try done.
  - by rewrite (iterator_direction _ _ _ true), (iterator_direction _ _ _ false).
Qed.
End ViewFacts.

(** ** Subscriptions *)

Lemma findIndex_from_absent (h : FnId) (subs : list FnId) (i : Z) :
  h ∉ subs → findIndex_from h subs i = (-1)%Z.
Proof.
  revert i. induction subs as [|s subs IH]; intros i Hn; simpl; [done|].
  apply not_elem_of_cons in Hn as [Hne Hn].
  destruct (s =? h) eqn:E; [apply Nat.eqb_eq in E; congruence|]. by apply IH.
Qed.

Lemma findIndex_from_first (h : FnId) (l1 l2 : list FnId) (i : Z) :
  h ∉ l1 → findIndex_from h (l1 ++ h :: l2) i = (i + Z.of_nat (length l1))%Z.
Proof.
  revert i. induction l1 as [|s l1 IH]; intros i Hn; simpl.
  - rewrite Nat.eqb_refl. lia.
  - apply not_elem_of_cons in Hn as [Hne Hn].
    destruct (s =? h) eqn:E; [apply Nat.eqb_eq in E; congruence|].
    rewrite IH by done. lia.
Qed.

Lemma splice1_middle (h : FnId) (l1 l2 : list FnId) :
  splice1 (length l1) (l1 ++ h :: l2) = l1 ++ l2.
Proof.
  unfold splice1. rewrite take_app_length. f_equal.
  rewrite (cons_middle h l1 l2), app_assoc.
  apply drop_app_length'. rewrite length_app. simpl. lia.
Qed.

(** The first registration of [h], when there is one. *)
Lemma first_occurrence (h : FnId) (subs : list FnId) :
  h ∈ subs → ∃ l1 l2, subs = l1 ++ h :: l2 ∧ h ∉ l1.
Proof.
  induction subs as [|s subs IH]; intros Hin; [by apply elem_of_nil in Hin|].
  destruct (decide (s = h)) as [->|Hne].
  - exists [], subs. split; [done|]. apply not_elem_of_nil.
  - apply elem_of_cons in Hin as [?|Hin]; [congruence|].
    destruct (IH Hin) as (l1 & l2 & -> & Hn).
    exists (s :: l1), l2. split; [done|]. apply not_elem_of_cons. auto.
Qed.

Lemma unsubscribe_absent (h : FnId) (w : World) :
  h ∉ subscriptions (this w) → unsubscribe h w = (Ok (), w).
Proof.
  intros Hn. unfold unsubscribe, findIndex. unfold_monad.
  by rewrite findIndex_from_absent.
Qed.

Lemma unsubscribe_first (h : FnId) (l1 l2 : list FnId) (w : World) :
  subscriptions (this w) = l1 ++ h :: l2 → h ∉ l1 →
  unsubscribe h w = (Ok (), with_this (set_subscriptions (l1 ++ l2) (this w)) w).
Proof.
  intros Hs Hn. unfold unsubscribe, findIndex. unfold_monad.
  rewrite Hs, findIndex_from_first by done.
  replace (0 <=? 0 + Z.of_nat (length l1))%Z with true by (symmetry; apply Z.leb_le; lia).
  by rewrite Z.add_0_l, Nat2Z.id, Hs, splice1_middle.
Qed.

Lemma subscribe_run (h : FnId) (w : World) :
  subscribe h w =
  (Ok (unsubscribe h),
   let r := set_subscriptions (subscriptions (this w) ++ [h]) (this w) in
   mkWorld (heap w) r (trace w ++ [mkEvent h r])).
Proof. unfold subscribe, call_handler. unfold_monad. by destruct w. Qed.

Lemma subscribe_subscriptions (h : FnId) (w : World) :
  subscriptions (this (subscribe h w).2) = subscriptions (this w) ++ [h].
Proof. by rewrite subscribe_run. Qed.

(** C8. [subscribe(handler)] appends the handler to the subscriber list and
    calls it exactly once, with the view as it is then, before it returns
    the unsubscribe function, whatever the state.  The unsubscribe
    function removes the first registration of that handler when there is
    one, and otherwise returns normally and changes nothing. *)
Theorem subscribe_calls_once_and_unsubscribe_removes (h : FnId) (w : World) :
  (∃ w', subscribe h w = (Ok (unsubscribe h), w') ∧
         heap w' = heap w ∧
         this w' = set_subscriptions (subscriptions (this w) ++ [h]) (this w) ∧
         trace w' = trace w ++ [mkEvent h (this w')]) ∧
  (((h ∉ subscriptions (this w)) ∧ (unsubscribe h w = (Ok (), w))) ∨
   (∃ l1 l2, subscriptions (this w) = l1 ++ h :: l2 ∧ (h ∉ l1) ∧
             (unsubscribe h w =
              (Ok (), with_this (set_subscriptions (l1 ++ l2) (this w)) w)))).
Proof.
  split.
  - eexists. rewrite subscribe_run. by repeat split.
  - destruct (decide (h ∈ subscriptions (this w))) as [Hin|Hn].
    + right. destruct (first_occurrence _ _ Hin) as (l1 & l2 & Hs & Hn).
      exists l1, l2. eauto using unsubscribe_first.
    + left. eauto using unsubscribe_absent.
Qed.


Lemma calls_of_app (h : FnId) (e1 e2 : list Event) :
  calls_of h (e1 ++ e2) = calls_of h e1 + calls_of h e2.
Proof. unfold calls_of. by rewrite List.filter_app, length_app. Qed.

Lemma calls_of_others (h : FnId) (r : Reducer) (subs : list FnId) :
  h ∉ subs → calls_of h ((fun g => mkEvent g r) <$> subs) = 0.
Proof.
  induction subs as [|s subs IH]; intros Hn; [done|].
  apply not_elem_of_cons in Hn as [Hne Hn]. unfold calls_of in *. simpl.
  destruct (s =? h) eqn:E; [apply Nat.eqb_eq in E; congruence|]. by apply IH.
Qed.

(** C10. A handler subscribed twice is registered twice; a notification
    calls every registration in subscription order, so this handler twice;
    both calls of [subscribe] return the same unsubscribe behaviour, each
    call of which removes the first registration found, so that two calls
    remove both. *)
Theorem double_subscription (h : FnId) (w : World) :
  h ∉ subscriptions (this w) →
  let w1 := (subscribe h w).2 in
  let w2 := (subscribe h w1).2 in
  let wn := (updateSubscribers w2).2 in
  let u1 := (unsubscribe h w2).2 in
  let u2 := (unsubscribe h u1).2 in
  (subscribe h w).1 = Ok (unsubscribe h) ∧ (subscribe h w1).1 = Ok (unsubscribe h) ∧
  subscriptions (this w2) = subscriptions (this w) ++ [h; h] ∧
  trace wn = trace w2 ++ ((fun g => mkEvent g (this w2)) <$> (subscriptions (this w) ++ [h; h])) ∧
  calls_of h (drop (length (trace w2)) (trace wn)) = 2 ∧
  subscriptions (this u1) = subscriptions (this w) ++ [h] ∧
  subscriptions (this u2) = subscriptions (this w).
Proof.
  intros Hn w1 w2 wn u1 u2.
  assert (subscriptions (this w2) = subscriptions (this w) ++ [h; h]) as Hs2.
  { subst w2 w1. rewrite !subscribe_subscriptions. by rewrite <- app_assoc. }
  assert (trace wn = trace w2 ++
            ((fun g => mkEvent g (this w2)) <$> (subscriptions (this w) ++ [h; h]))) as Ht.
  { subst wn. by rewrite updateSubscribers_run, <- Hs2. }
  assert (this u1 = set_subscriptions (subscriptions (this w) ++ [h]) (this w2)) as Hu1.
  { subst u1. by rewrite (unsubscribe_first h (subscriptions (this w)) [h]). }
  assert (this u2 = set_subscriptions (subscriptions (this w)) (this u1)) as Hu2.
  { subst u2. rewrite (unsubscribe_first h (subscriptions (this w)) []).
    - simpl. by rewrite app_nil_r.
    - by rewrite Hu1.
    - done. }
  split_and!; try done.
  - rewrite Ht, drop_app_length.
    rewrite fmap_app, calls_of_app, calls_of_others by done.
    unfold calls_of. simpl. by rewrite Nat.eqb_refl.
  - by rewrite Hu1.
  - by rewrite Hu2.
Qed.

(** ** setData and the reversed setter *)

Lemma install_array (l : loc) (w : World) :
  install (VArr l) w = (Ok (), with_this (set_array0 (Some l) (this w)) w).
Proof. done. Qed.

Lemma install_copy (data : Val) (items : list Val) (w : World) :
  Array_isArray data = false → spread (heap w) data = Ok items →
  install data w =
  (Ok (),
   let l := fresh (dom (heap w)) in
   mkWorld (<[l := items]> (heap w)) (set_array0 (Some l) (this w)) (trace w)).
Proof.
  intros Hna Hsp. destruct data; try done; simpl in *;
    unfold_monad; unfold alloc; simpl; by simplify_eq.
Qed.

Lemma deref_insert_eq (h : Heap) (l : loc) (xs : list Val) :
  deref (<[l := xs]> h) l = xs.
Proof. unfold deref. by rewrite lookup_insert_eq. Qed.

Lemma deref_insert_ne (h : Heap) (l l' : loc) (xs : list Val) :
  l ≠ l' → deref (<[l := xs]> h) l' = deref h l'.
Proof. intros Hne. unfold deref. by rewrite lookup_insert_ne. Qed.

Section SetDataFacts.
Variable isIterable : Val -> bool.
Variable applyFilter : FnId -> Val -> bool.
Variable applyCompare : FnId -> Val -> Val -> Z.
Variable maxArguments : nat.

Abbreviation setData' := (setData isIterable applyFilter applyCompare maxArguments).
Abbreviation update' := (Indexer_update applyFilter applyCompare).

(** The in-place branch: the host array is emptied, the incoming items
    are read after that and pushed in one call, and a recompute
    follows. *)
Lemma setData_in_place_run (data : Val) (items : list Val) (l : loc) (w : World) :
  array0 (this w) = Some l → isIterable data = true → truthy data = true →
  spread (<[l := []]> (heap w)) data = Ok items →
  length items ≤ maxArguments →
  setData' data (VBool false) w =
  update' true (with_heap (<[l := items]> (heap w)) w).
Proof.
  intros Ha Hit Htr Hsp Hfit. unfold setData. simpl. rewrite Hit, andb_false_r.
  unfold_monad. rewrite Ha, Htr. simpl. unfold spread_arguments. rewrite Hsp.
  replace (maxArguments <? length items) with false
    by (symmetry; apply Nat.ltb_ge; lia).
  simpl. by rewrite deref_insert_eq, insert_insert_eq.
Qed.

(** The in-place branch with more items than one call takes: the push
    throws, after the array has been emptied and before the recompute. *)
Lemma setData_in_place_overflow_run
    (data : Val) (items : list Val) (l : loc) (w : World) :
  array0 (this w) = Some l → isIterable data = true → truthy data = true →
  spread (<[l := []]> (heap w)) data = Ok items →
  maxArguments < length items →
  setData' data (VBool false) w =
  (Throw (RangeError "Maximum call stack size exceeded"),
   with_heap (<[l := []]> (heap w)) w).
Proof.
  intros Ha Hit Htr Hsp Hover. unfold setData. simpl. rewrite Hit, andb_false_r.
  unfold_monad. rewrite Ha, Htr. simpl. unfold spread_arguments. rewrite Hsp.
  by replace (maxArguments <? length items) with true
    by (symmetry; apply Nat.ltb_lt; lia).
Qed.

(** The replace branch with data present. *)
Lemma setData_replace_run (data : Val) (w : World) :
  isIterable data = true → truthy data = true →
  setData' data (VBool true) w =
  match install data w with
  | (Ok _, w') => update' true w'
  | (Throw e, w') => (Throw e, w')
  end.
Proof.
  intros Hit Htr. unfold setData. simpl. rewrite Hit, andb_false_r.
  unfold_monad. rewrite Htr. by destruct (array0 (this w)).
Qed.

(** A replacement with data that can be iterated returns normally and
    leaves the array held before as it is. *)
Lemma setData_replace_keeps_old_array (data : Val) (items : list Val) (l : loc) (w : World) :
  is_Some (heap w !! l) →
  isIterable data = true → truthy data = true → spread (heap w) data = Ok items →
  (setData' data (VBool true) w).1 = Ok () ∧
  heap (setData' data (VBool true) w).2 !! l = heap w !! l.
Proof.
  intros Hl Hit Htr Hsp. rewrite setData_replace_run by done.
  assert (fresh (dom (heap w)) ≠ l) as Hfresh.
  { intros Heq. apply (is_fresh (dom (heap w))). rewrite Heq. by apply elem_of_dom. }
  destruct data; simplify_eq/=; try done; unfold_monad; unfold alloc; simpl;
    rewrite Indexer_update_run; simpl; try done; by rewrite lookup_insert_ne.
Qed.

(** What data yields does not depend on the heap, unless data is an array
    or a view of one. *)
Lemma spread_other_heap (h h' : Heap) (data : Val) (items : list Val) :
  spread h data = Ok items → ∃ items', spread h' data = Ok items'.
Proof. destruct data; simpl; try done; by eauto. Qed.

(** C4. Against the claim: when the new items are more than one call
    takes as arguments, [setData(newItems, false)] throws a RangeError
    after it has emptied the backing array.  The array the caller holds
    is then empty and does not hold the new items, the store, the stored
    ordering and the trace of handler calls are as before (nothing is
    recomputed, no subscriber is called).  [setData(newItems, true)] with
    the same data returns normally. *)
Theorem setData_in_place_overflow_loses_data
    (w : World) (l : loc) (data : Val) (items : list Val) :
  array0 (this w) = Some l → is_Some (heap w !! l) →
  isIterable data = true → truthy data = true →
  spread (<[l := []]> (heap w)) data = Ok items →
  maxArguments < length items →
  let r := setData' data (VBool false) w in
  r = (Throw (RangeError "Maximum call stack size exceeded"),
       with_heap (<[l := []]> (heap w)) w) ∧
  deref (heap r.2) l = [] ∧ deref (heap r.2) l ≠ items ∧
  this r.2 = this w ∧ trace r.2 = trace w ∧
  (setData' data (VBool true) w).1 = Ok ().
Proof.
  intros Ha Hl Hit Htr Hsp Hover r. subst r.
  rewrite (setData_in_place_overflow_run data items l) by done. simpl.
  rewrite deref_insert_eq. split_and!; try done.
  - intros <-. simpl in Hover. lia.
  - destruct (spread_other_heap _ (heap w) _ _ Hsp) as [items0 Hsp0].
    by apply (setData_replace_keeps_old_array data items0 l).
Qed.


(** Null data: the replace branch has no case for it and leaves the
    store as it is, the in-place branch clears the store. *)
Lemma setData_null_replace_run (w : World) :
  setData' VNull (VBool true) w = update' true w.
Proof. unfold setData. unfold_monad. simpl. by destruct (array0 (this w)). Qed.

Lemma setData_null_replace_store (w : World) :
  array0 (this (setData' VNull (VBool true) w).2) = array0 (this w).
Proof. by rewrite setData_null_replace_run, Indexer_update_run. Qed.

Lemma setData_null_in_place_store (w : World) :
  array0 (this (setData' VNull (VBool false) w).2) = None.
Proof.
  unfold setData. unfold_monad. simpl.
  destruct (array0 (this w)) eqn:Ha; simpl; by rewrite Indexer_update_run.
Qed.

(** With no array in the store, or on request, data that is present is
    installed: an array by reference, any other iterable as a new array
    holding its items. *)
Lemma setData_installs (data : Val) (items : list Val) (replace : bool) (w : World) :
  array0 (this w) = None ∨ replace = true →
  isIterable data = true → truthy data = true → spread (heap w) data = Ok items →
  let w' := (setData' data (VBool replace) w).2 in
  match data with
  | VArr l => array0 (this w') = Some l ∧ heap w' = heap w
  | _ => array0 (this w') = Some (fresh (dom (heap w))) ∧
         heap w' = <[fresh (dom (heap w)) := items]> (heap w)
  end.
Proof.
  intros Hbranch Hit Htr Hsp w'. subst w'.
  assert (setData' data (VBool replace) w =
          match install data w with
          | (Ok _, w') => update' true w'
          | (Throw e, w') => (Throw e, w')
          end) as ->.
  { destruct Hbranch as [Hnone| ->]; [|by apply setData_replace_run].
    unfold setData. simpl. rewrite Hit, andb_false_r.
    unfold_monad. by rewrite Hnone, Htr. }
  destruct data; simplify_eq/=; unfold_monad; unfold alloc; simpl;
    by rewrite Indexer_update_run.
Qed.

(** C9. A call of [setData] with data that is neither null nor iterable,
    or with a replace flag that is given and no boolean, and an
    assignment to [reversed] of a value that is no boolean, throw at
    once: the heap, every field of the reducer and the trace of handler
    calls are as before the call. *)
Theorem rejected_calls_change_nothing (w : World) (data replace v : Val) :
  (is_null data = false ∧ isIterable data = false) ∨
  (is_undefined replace = false ∧ typeof replace ≠ TBoolean) →
  typeof v ≠ TBoolean →
  (∃ e, setData' data replace w = (Throw e, w)) ∧
  (∃ e, set_reversed applyFilter applyCompare v w = (Throw e, w)).
Proof.
  intros Hset Hrev. split.
  - unfold setData. destruct Hset as [[Hn Hi]|[Hu Hb]].
    + rewrite Hn, Hi. simpl. by eexists.
    + rewrite Hu. destruct (negb (is_null data) && negb (isIterable data)); [by eexists|].
      destruct replace; try done; by eexists.
  - destruct v; try done; by eexists.
Qed.
End SetDataFacts.

(** ** The constructor *)

Section ConstructorFacts.
Variable isIterable : Val -> bool.
Variable applyFilter : FnId -> Val -> bool.
Variable applyCompare : FnId -> Val -> Val -> Z.
Variable maxArguments : nat.

Abbreviation new' := (new_DynArrayReducer isIterable applyFilter applyCompare maxArguments).

(** C3, as the code has it.  Construction throws, leaving nothing
    behind, when the argument is null, or is not undefined, is no object
    and is not iterable.  An object without an iterator is let through
    by the type test: when it has none of the keys [data], [filters] and
    [sort], construction succeeds and the backing store stays absent. *)
Theorem constructor_rejects_null_and_non_objects (h : Heap) (data : Val) :
  (is_null data = true ∨
   (is_undefined data = false ∧ typeof data ≠ TObject ∧ isIterable data = false) →
   ∃ e, new' h data = (Throw e, mkWorld h initial_fields [])) ∧
  (∀ fields, data = VObj fields →
     assoc "data" fields = None → assoc "filters" fields = None →
     assoc "sort" fields = None →
     new' h data = (Ok (), mkWorld h initial_fields [])).
Proof.
  unfold new_DynArrayReducer, constructor. split.
  - intros [Hn|(Hu & Ht & Hi)].
    + rewrite Hn. by eexists.
    + destruct (is_null data); [by eexists|].
      rewrite Hu, Hi. simpl.
      destruct (typeof data); try done; by eexists.
  - intros fields -> Hd Hf Hs. simpl. unfold_monad. unfold or_else. unfold_monad.
    simpl. by rewrite Hd, Hf, Hs.
Qed.
End ConstructorFacts.

(** * Concrete runs *)

Module Sample.
Import Fixture.


Lemma sampleCompare_consistent (c : FnId) (xs : list Val) (P : nat → Prop) :
  consistent_on (compare_at sampleCompare c xs) P.
Proof. unfold compare_at, sampleCompare. split; intros; lia. Qed.

(** The examples of the spec: the conjunction of two filters, and a sort
    with ties. *)
Example filters_even_above_4 :
  (fun i => nth_val one_to_ten i) <$> rebuild sampleFilter sampleCompare one_to_ten [0; 1] None
  = [VNum 6; VNum 8; VNum 10].
Proof. reflexivity. Qed.

Example sort_rows_by_k :
  (fun i => nth_val rows i) <$> rebuild sampleFilter sampleCompare rows [] (Some 0)
  = [row 0 "c"; row 1 "a"; row 1 "b"].
Proof. reflexivity. Qed.

Lemma rebuild_filters_then_sorts_stably_witness :
  let idx := rebuild sampleFilter sampleCompare rows [] (Some 0) in
  sorted_by (compare_at sampleCompare 0 rows) idx ∧ precedes idx 0 1.
Proof.
  destruct (rebuild_filters_then_sorts_stably sampleFilter sampleCompare rows [] (Some 0))
    as (_ & Hmem & _ & _ & Hstable & Hsorted).
  split.
  - apply Hsorted, sampleCompare_consistent.
  - apply Hstable; try reflexivity; try lia.
    + apply Hmem. split; [simpl; lia|]. intros f Hf. by apply elem_of_nil in Hf.
    + apply Hmem. split; [simpl; lia|]. intros f Hf. by apply elem_of_nil in Hf.
Defined.

(** C2. [setData(null, true)] on a reducer holding [1, 2, 3]: the call
    returns normally and the store still holds that array, where
    [setData(null, false)] clears the store. *)
Theorem setData_null_replace_keeps_store :
  setData isIterableObject sampleFilter sampleCompare engineLimit VNull (VBool true) w123 = (Ok (), w123) ∧
  get_data w123 = Some 1%positive ∧
  deref (heap w123) 1%positive = [VNum 1; VNum 2; VNum 3] ∧
  get_data (setData isIterableObject sampleFilter sampleCompare engineLimit VNull (VBool false) w123).2 = None.
Proof. by vm_compute. Qed.

(** C3 fails on the empty object: it is no iterable, is not undefined and
    has none of the configuration keys, and construction succeeds with an
    absent backing store. *)
Lemma constructor_accepts_empty_object :
  isIterableObject (VObj []) = false ∧
  has_iterator_key (VObj []) = Ok false ∧
  is_undefined (VObj []) = false ∧
  has_key "data" (VObj []) = Ok false ∧
  has_key "filters" (VObj []) = Ok false ∧
  has_key "sort" (VObj []) = Ok false ∧
  is_throw (new_DynArrayReducer isIterableObject sampleFilter sampleCompare engineLimit ∅ (VObj [])).1 = false ∧
  get_data (new_DynArrayReducer isIterableObject sampleFilter sampleCompare engineLimit ∅ (VObj [])).2 = None.
Proof. by vm_compute. Qed.

Lemma constructor_rejects_null_and_non_objects_witness :
  ∃ e, new_DynArrayReducer isIterableObject sampleFilter sampleCompare engineLimit ∅ (VNum 5)
       = (Throw e, mkWorld ∅ initial_fields []).
Proof.
  apply (constructor_rejects_null_and_non_objects isIterableObject sampleFilter sampleCompare
           engineLimit ∅ (VNum 5)).
  right. by repeat split.
Defined.

Lemma setData_in_place_overflow_loses_data_witness :
  let data := VIter (VNum <$> [1; 2; 3; 4; 5; 6; 7; 8; 9]%Z) in
  let r := setData isIterableObject sampleFilter sampleCompare engineLimit data (VBool false)
             w123 in
  r.1 = Throw (RangeError "Maximum call stack size exceeded") ∧
  get_data r.2 = Some 1%positive ∧ deref (heap r.2) 1%positive = [].
Proof.
  intros data r.
  destruct (setData_in_place_overflow_loses_data isIterableObject sampleFilter sampleCompare
              engineLimit w123 1%positive data (VNum <$> [1; 2; 3; 4; 5; 6; 7; 8; 9]%Z))
    as (Hr & Hempty & _ & Hthis & _); try reflexivity.
  - by eexists.
  - vm_compute. lia.
  - fold r in Hr, Hempty, Hthis. split_and!.
    + by rewrite Hr.
    + unfold get_data. by rewrite Hthis.
    + exact Hempty.
Defined.


Lemma get_length_cases_witness :
  get_length w123_even = 1 ∧ get_length w123 = 3 ∧
  get_length (with_this initial_fields w123) = 0 ∧
  get_length (Indexer_update sampleFilter sampleCompare true
                (with_this (set_filters [0] initial_fields) w123)).2 = 0.
Proof.
  split_and!.
  - by apply (get_length_cases sampleFilter sampleCompare w123_even).
  - by apply (proj1 (proj2 (get_length_cases sampleFilter sampleCompare w123)) eq_refl 1%positive).
  - by apply (get_length_cases sampleFilter sampleCompare (with_this initial_fields w123)).
  - by apply (get_length_cases sampleFilter sampleCompare
                (with_this (set_filters [0] initial_fields) w123)).
Defined.

Lemma iterator_inactive_witness :
  iterator w123 = [VNum 1; VNum 2; VNum 3] ∧ get_length w123 = 3 ∧
  iterator (with_this (set_reversed_field true (this w123)) w123) = [VNum 3; VNum 2; VNum 1].
Proof.
  destruct (iterator_inactive w123 eq_refl eq_refl) as [Hfwd Hlen].
  destruct (iterator_inactive (with_this (set_reversed_field true (this w123)) w123)
              eq_refl eq_refl) as [Hbwd _].
  split; [exact Hfwd|]. split; [exact Hlen|exact Hbwd].
Defined.

Lemma reversed_flips_direction_only_witness :
  let wt := (set_reversed sampleFilter sampleCompare (VBool true) w123_even).2 in
  index (this wt) = Some [1] ∧ iterator wt = [VNum 2].
Proof.
  intros wt.
  destruct (reversed_flips_direction_only sampleFilter sampleCompare w123_even)
    as (Hrev & _ & Hkeep & _).
  subst wt. split; [by apply Hkeep|]. by rewrite Hrev.
Defined.

Lemma rejected_calls_change_nothing_witness :
  (∃ e, setData isIterableObject sampleFilter sampleCompare engineLimit (VNum 5) (VStr "yes") w123
        = (Throw e, w123)) ∧
  (∃ e, set_reversed sampleFilter sampleCompare (VNum 1) w123 = (Throw e, w123)).
Proof.
  apply (rejected_calls_change_nothing isIterableObject sampleFilter sampleCompare
           engineLimit w123 (VNum 5) (VStr "yes") (VNum 1)); [by left|done].
Defined.

Lemma double_subscription_witness :
  let w2 := (subscribe 7 (subscribe 7 w123).2).2 in
  subscriptions (this w2) = [7; 7] ∧
  calls_of 7 (drop (length (trace w2)) (trace (updateSubscribers w2).2)) = 2 ∧
  subscriptions (this (unsubscribe 7 (unsubscribe 7 w2).2).2) = [].
Proof.
  intros w2.
  destruct (double_subscription 7 w123) as (_ & _ & Hs & _ & Hc & _ & Hu).
  - apply not_elem_of_nil.
  - split; [exact Hs|]. split; [exact Hc|exact Hu].
Defined.

End Sample.


(** * Further properties of the facade *)

(** ** setData, branch by branch *)

Lemma spread_throws_any_heap (h h' : Heap) (data : Val) (e : Error) :
  spread h data = Throw e → spread h' data = Throw e.
Proof. by destruct data. Qed.

Lemma fresh_not_in_heap (h : Heap) : h !! fresh (dom h) = None.
Proof. apply not_elem_of_dom, is_fresh. Qed.

Section SetDataBranches.
Variable isIterable : Val -> bool.
Variable applyFilter : FnId -> Val -> bool.
Variable applyCompare : FnId -> Val -> Val -> Z.
Variable maxArguments : nat.

Abbreviation setData' := (setData isIterable applyFilter applyCompare maxArguments).
Abbreviation update' := (Indexer_update applyFilter applyCompare).

(** Data present, and no array in the store or a replacement asked for. *)
Lemma setData_install_run (data : Val) (b : bool) (w : World) :
  array0 (this w) = None ∨ b = true →
  isIterable data = true → truthy data = true →
  setData' data (VBool b) w =
  match install data w with
  | (Ok _, w') => update' true w'
  | (Throw e, w') => (Throw e, w')
  end.
Proof.
  intros Hbranch Hit Htr. unfold setData. simpl. rewrite Hit, andb_false_r.
  unfold_monad. rewrite Htr.
  destruct Hbranch as [-> | ->]; [done|]. by destruct (array0 (this w)).
Qed.

(** Falsy data that passes the check. *)
Lemma setData_falsy_keep_run (data : Val) (b : bool) (w : World) :
  array0 (this w) = None ∨ b = true →
  is_null data = true ∨ isIterable data = true → truthy data = false →
  setData' data (VBool b) w = update' true w.
Proof.
  intros Hbranch Hvalid Hfalsy. unfold setData. simpl.
  replace (negb (is_null data) && negb (isIterable data)) with false
    by (by destruct Hvalid as [-> | ->]; rewrite ?andb_false_r).
  unfold_monad. rewrite Hfalsy.
  destruct Hbranch as [-> | ->]; [done|]. by destruct (array0 (this w)).
Qed.

Lemma setData_falsy_clear_run (data : Val) (l : loc) (w : World) :
  array0 (this w) = Some l →
  is_null data = true ∨ isIterable data = true → truthy data = false →
  setData' data (VBool false) w =
  update' true (with_this (set_array0 None (this w)) w).
Proof.
  intros Ha Hvalid Hfalsy. unfold setData. simpl.
  replace (negb (is_null data) && negb (isIterable data)) with false
    by (by destruct Hvalid as [-> | ->]; rewrite ?andb_false_r).
  unfold_monad. by rewrite Ha, Hfalsy.
Qed.

(** X1. With no array in the store, or when a replacement is asked for,
    [setData] with data present returns normally; an array is installed
    by reference and the heap is left alone; any other iterable is copied
    into an array that did not exist before, which holds its items, and
    every array that existed keeps its contents. *)
Theorem setData_installs_reference_or_fresh_copy
    (w : World) (data : Val) (items : list Val) (b : bool) :
  array0 (this w) = None ∨ b = true →
  isIterable data = true → truthy data = true →
  spread (heap w) data = Ok items →
  let w' := (setData' data (VBool b) w).2 in
  (setData' data (VBool b) w).1 = Ok () ∧
  (∀ l, data = VArr l → get_data w' = Some l ∧ heap w' = heap w) ∧
  (Array_isArray data = false →
   ∃ l', get_data w' = Some l' ∧ heap w !! l' = None ∧
         deref (heap w') l' = items ∧
         ∀ l, l ≠ l' → heap w' !! l = heap w !! l).
Proof.
  intros Hbranch Hit Htr Hsp w'. subst w'.
  rewrite setData_install_run by done.
  destruct (Array_isArray data) eqn:Harr.
  - destruct data; try done. rewrite install_array, Indexer_update_run. simpl.
    split_and!; try done. by intros l' [= ->].
  - rewrite (install_copy data items) by done. rewrite Indexer_update_run. simpl.
    split_and!; try done.
    + intros l ->. done.
    + intros _. exists (fresh (dom (heap w))). unfold get_data. simpl.
      split_and!; try done.
      * apply fresh_not_in_heap.
      * apply deref_insert_eq.
      * intros l Hne. by rewrite lookup_insert_ne.
Qed.

(** X2. [setData] with null, or with any falsy value that passes the
    iterable check, on a reducer that holds an array and without a
    replacement asked for: the call returns normally, the store becomes
    absent, no array of the heap is changed (the array held before keeps
    its contents), the length is 0 and a pass yields nothing. *)
Theorem setData_falsy_data_detaches_array (w : World) (l : loc) (data : Val) :
  array0 (this w) = Some l →
  is_null data = true ∨ isIterable data = true → truthy data = false →
  let w' := (setData' data (VBool false) w).2 in
  (setData' data (VBool false) w).1 = Ok () ∧
  get_data w' = None ∧ heap w' = heap w ∧
  get_length w' = 0 ∧ iterator w' = [].
Proof.
  intros Ha Hvalid Hfalsy w'. subst w'.
  rewrite (setData_falsy_clear_run data l) by done.
  rewrite Indexer_update_run. simpl. split_and!; try done.
  unfold get_length, recomputed, host_items, IndexerAPI_length. simpl.
  change (Indexer_isActive (set_index ?i ?r)) with (Indexer_isActive r).
  change (Indexer_isActive (set_array0 ?i ?r)) with (Indexer_isActive r).
  destruct (Indexer_isActive (this w)); simpl; [|done].
  by destruct (compareFn (this w)).
Qed.

(** X3. [setData(array, false)] where [array] is the array the reducer
    holds: the array is emptied before its items are read, so the call
    returns normally and leaves the array empty; the store still holds
    it, the length is 0 and a pass yields nothing. *)
Theorem setData_with_host_array_empties_it (w : World) (l : loc) :
  array0 (this w) = Some l → isIterable (VArr l) = true →
  let w' := (setData' (VArr l) (VBool false) w).2 in
  (setData' (VArr l) (VBool false) w).1 = Ok () ∧
  get_data w' = Some l ∧ deref (heap w') l = [] ∧
  (∀ l', l' ≠ l → heap w' !! l' = heap w !! l') ∧
  get_length w' = 0 ∧ iterator w' = [].
Proof.
  intros Ha Hit w'. subst w'.
  rewrite (setData_in_place_run _ _ _ _ (VArr l) [] l) by
    (try done; simpl; rewrite ?deref_insert_eq; first [done|lia]).
  rewrite Indexer_update_run. simpl.
  assert (host_items (with_heap (<[l:=[]]> (heap w)) w) = []) as Hhost.
  { unfold host_items. simpl. rewrite Ha. apply deref_insert_eq. }
  split_and!; try done.
  - apply deref_insert_eq.
  - intros l' Hne. by rewrite lookup_insert_ne.
  - unfold get_length, recomputed, IndexerAPI_length. simpl. rewrite Hhost, Ha.
    change (Indexer_isActive (set_index ?i ?r)) with (Indexer_isActive r).
    rewrite deref_insert_eq.
    destruct (Indexer_isActive (this w)); simpl; [|done].
    by destruct (compareFn (this w)).
  - unfold iterator. simpl. rewrite Ha. by rewrite deref_insert_eq.
Qed.

(** X4. When the iterable check lets a value through whose iteration then
    throws, [setData] without replacement throws after it has emptied the
    array: the array is left empty, the stored ordering is not recomputed
    and no subscriber is called.  With a replacement asked for the same
    call throws and changes nothing. *)
Theorem setData_failed_push_leaves_array_empty
    (w : World) (l : loc) (data : Val) (e : Error) :
  array0 (this w) = Some l →
  isIterable data = true → truthy data = true →
  spread (heap w) data = Throw e →
  setData' data (VBool false) w = (Throw e, with_heap (<[l := []]> (heap w)) w) ∧
  setData' data (VBool true) w = (Throw e, w).
Proof.
  intros Ha Hit Htr Hsp.
  split.
  - unfold setData. simpl. rewrite Hit, andb_false_r.
    unfold_monad. rewrite Ha, Htr. simpl. unfold spread_arguments.
    by rewrite (spread_throws_any_heap (heap w) _ data e).
  - rewrite setData_install_run by auto.
    destruct data; try done; simpl in *; unfold_monad; by simplify_eq.
Qed.
End SetDataBranches.

(** ** Notification and what a pass yields after setData *)

(** One pass and the length when nothing is registered. *)
Lemma inactive_pass (w : World) :
  filters (this w) = [] → compareFn (this w) = None →
  iterator w = if reversed (this w) then rev (host_items w) else host_items w.
Proof.
  intros Hf Hc.
  assert (Indexer_isActive (this w) = false) as Hin by by apply inactive_iff.
  unfold iterator, host_items, get_reversed. rewrite Hin.
  destruct (array0 (this w)) as [l|]; [|by destruct (reversed (this w))].
  destruct (length (deref (heap w) l) =? 0) eqn:Hlen.
  - apply length_zero_nil in Hlen. rewrite Hlen. by destruct (reversed (this w)).
  - destruct (reversed (this w)); [apply yield_down_all|apply yield_up_all].
Qed.

Lemma inactive_length (w : World) :
  filters (this w) = [] → compareFn (this w) = None →
  get_length w = length (host_items w).
Proof.
  intros Hf Hc.
  assert (Indexer_isActive (this w) = false) as Hin by by apply inactive_iff.
  unfold get_length, host_items. rewrite Hin. by destruct (array0 (this w)).
Qed.

Section SetDataEffects.
Variable isIterable : Val -> bool.
Variable applyFilter : FnId -> Val -> bool.
Variable applyCompare : FnId -> Val -> Val -> Z.
Variable maxArguments : nat.

Abbreviation setData' := (setData isIterable applyFilter applyCompare maxArguments).
Abbreviation update' := (Indexer_update applyFilter applyCompare).

(** The ordering a recompute stores is the one a recompute of the
    resulting state would give. *)
Lemma recomputed_after_update (w : World) (t : list Event) :
  recomputed applyFilter applyCompare
    (mkWorld (heap w) (set_index (recomputed applyFilter applyCompare w) (this w)) t)
  = recomputed applyFilter applyCompare w.
Proof. done. Qed.

(** Emptying an array takes items away from what data yields, if it
    changes that at all. *)
Lemma spread_after_truncation (h : Heap) (l : loc) (data : Val) (items : list Val) :
  spread h data = Ok items →
  ∃ items', spread (<[l := []]> h) data = Ok items' ∧ length items' ≤ length items.
Proof.
  destruct data as [| | | | |?|l'|?|?|l']; simpl; try done;
    try (intros [= <-]; by eexists).
  - intros [= <-]. eexists. split; [done|].
    destruct (decide (l = l')) as [<-|Hne];
      [rewrite deref_insert_eq; simpl; lia|by rewrite deref_insert_ne].
  - intros [= <-]. eexists. split; [done|].
    destruct (decide (l = l')) as [<-|Hne];
      [rewrite deref_insert_eq; simpl; lia|by rewrite deref_insert_ne].
Qed.

(** A call of [setData] with arguments that pass the checks and data that
    can be iterated, and fits in one call where the items are pushed,
    comes down to one recompute, on a state in which at most the store
    and the heap differ. *)
Lemma setData_ok_run (w : World) (data replace : Val) (items : list Val) :
  is_null data = true ∨
  (isIterable data = true ∧ spread (heap w) data = Ok items) →
  is_undefined replace = true ∨ typeof replace = TBoolean →
  replace = VBool true ∨ array0 (this w) = None ∨ length items ≤ maxArguments →
  ∃ w0, setData' data replace w = update' true w0 ∧
        trace w0 = trace w ∧ this w0 = set_array0 (array0 (this w0)) (this w).
Proof.
  intros Hvalid Hrep Hfit.
  assert (∃ b, setData' data replace w = setData' data (VBool b) w ∧
               (replace = VBool true → b = true)) as (b & -> & Hb).
  { destruct replace as [| |b| | | | | | |]; destruct Hrep as [Hr|Hr]; try done;
      [exists false|exists b]; split; try done. by intros [= ->]. }
  assert (is_null data = true ∨ isIterable data = true) as Hv by tauto.
  destruct (truthy data) eqn:Htr.
  - destruct Hvalid as [Hn|[Hit Hsp]]; [by destruct data|].
    destruct (array0 (this w)) as [l|] eqn:Ha; [destruct b|].
    + rewrite setData_install_run by auto.
      destruct data; try done; unfold install; unfold_monad; unfold alloc; simpl;
        eexists; (split; [reflexivity|]); by simpl.
    + destruct (spread_after_truncation _ l _ _ Hsp) as (items' & Hsp' & Hlen).
      assert (length items' ≤ maxArguments) as Hfit'.
      { destruct Hfit as [Hr|[?|?]]; [by specialize (Hb Hr)|done|lia]. }
      rewrite (setData_in_place_run _ _ _ _ data items' l) by done.
      eexists. split; [reflexivity|]. simpl. split; [done|]. by destruct (this w).
    + rewrite setData_install_run by auto.
      destruct data; try done; unfold install; unfold_monad; unfold alloc; simpl;
        eexists; (split; [reflexivity|]); by simpl.
  - destruct (array0 (this w)) as [l|] eqn:Ha; [destruct b|].
    + rewrite setData_falsy_keep_run by auto.
      eexists. split; [reflexivity|]. simpl. split; [done|]. by destruct (this w).
    + rewrite (setData_falsy_clear_run _ _ _ _ data l) by done.
      eexists. split; [reflexivity|]. simpl. split; [done|]. by destruct (this w).
    + rewrite setData_falsy_keep_run by auto.
      eexists. split; [reflexivity|]. simpl. split; [done|]. by destruct (this w).
Qed.

(** X5. A call of [setData] whose arguments pass the checks and whose data
    can be iterated, and yields no more items than one call takes as
    arguments when the call works in place (an array installed and no
    replacement asked for), returns normally and calls every registered
    handler exactly once, in subscription order, each with the reducer as
    it is when the call returns (new data in place, ordering recomputed);
    the subscriber list, the filters, the comparator and the reversed
    flag are as before. *)
Theorem setData_notifies_each_subscriber_once
    (w : World) (data replace : Val) (items : list Val) :
  is_null data = true ∨
  (isIterable data = true ∧ spread (heap w) data = Ok items) →
  is_undefined replace = true ∨ typeof replace = TBoolean →
  replace = VBool true ∨ array0 (this w) = None ∨ length items ≤ maxArguments →
  let w' := (setData' data replace w).2 in
  (setData' data replace w).1 = Ok () ∧
  trace w' = trace w ++ ((fun h => mkEvent h (this w')) <$> subscriptions (this w)) ∧
  index (this w') = recomputed applyFilter applyCompare w' ∧
  subscriptions (this w') = subscriptions (this w) ∧
  filters (this w') = filters (this w) ∧
  compareFn (this w') = compareFn (this w) ∧
  reversed (this w') = reversed (this w).
Proof.
  intros Hvalid Hrep Hfit w'. subst w'.
  destruct (setData_ok_run w data replace items Hvalid Hrep Hfit) as (w0 & -> & Ht & Hthis).
  rewrite Indexer_update_run. simpl. rewrite Ht.
  assert (subscriptions (this w0) = subscriptions (this w) ∧
          filters (this w0) = filters (this w) ∧
          compareFn (this w0) = compareFn (this w) ∧
          reversed (this w0) = reversed (this w)) as (Hs & Hf & Hc & Hr)
    by (by rewrite Hthis).
  rewrite Hs. by split_and!.
Qed.

(** X6. Assigning a boolean to [reversed] returns normally, the getter
    then gives the value assigned, the indexer's flag is the same value,
    and every registered handler is called exactly once, in subscription
    order, with the reducer as it is after the assignment, also when the
    value assigned is the one the flag had. *)
Theorem set_reversed_stores_and_notifies (w : World) (b : bool) :
  let w' := (set_reversed applyFilter applyCompare (VBool b) w).2 in
  (set_reversed applyFilter applyCompare (VBool b) w).1 = Ok () ∧
  get_reversed w' = b ∧ index_reversed (this w') = b ∧
  trace w' = trace w ++ ((fun h => mkEvent h (this w')) <$> subscriptions (this w)) ∧
  subscriptions (this w') = subscriptions (this w).
Proof. intros w'. subst w'. rewrite set_reversed_run. by split_and!. Qed.

(** X7. On a reducer without filter and comparator, after [setData] with
    an iterable, one pass yields the items of that iterable, in their
    order or in reverse when the reversed flag is set, and the length is
    their number, provided that, when the call works in place (an array
    installed and no replacement asked for), emptying the installed array
    does not change what the iterable yields and the items are no more
    than one call takes as arguments. *)
Theorem setData_then_iterate (w : World) (data : Val) (items : list Val) (b : bool) :
  filters (this w) = [] → compareFn (this w) = None →
  isIterable data = true → truthy data = true →
  spread (heap w) data = Ok items →
  (∀ l, array0 (this w) = Some l → b = false →
        spread (<[l := []]> (heap w)) data = Ok items ∧ length items ≤ maxArguments) →
  let w' := (setData' data (VBool b) w).2 in
  iterator w' = (if reversed (this w) then rev items else items) ∧
  get_length w' = length items.
Proof.
  intros Hf Hc Hit Htr Hsp Hplace w'.
  assert (host_items w' = items ∧ filters (this w') = [] ∧ compareFn (this w') = None
          ∧ reversed (this w') = reversed (this w)) as (Hhost & Hf' & Hc' & Hr').
  { subst w'. destruct (array0 (this w)) as [l|] eqn:Ha; [destruct b|].
    - rewrite setData_install_run by auto.
      destruct data; simplify_eq/=; unfold_monad; unfold alloc; simpl;
        rewrite Indexer_update_run; unfold host_items; simpl;
        by rewrite ?deref_insert_eq.
    - destruct (Hplace l eq_refl eq_refl) as [Hsp' Hfit].
      rewrite (setData_in_place_run _ _ _ _ data items l) by done.
      rewrite Indexer_update_run. unfold host_items. simpl.
      by rewrite Ha, deref_insert_eq.
    - rewrite setData_install_run by auto.
      destruct data; simplify_eq/=; unfold_monad; unfold alloc; simpl;
        rewrite Indexer_update_run; unfold host_items; simpl;
        by rewrite ?deref_insert_eq. }
  rewrite inactive_pass, inactive_length by done.
  by rewrite Hr', Hhost.
Qed.
End SetDataEffects.

(** ** The constructor, case by case *)

Section ConstructorCases.
Variable isIterable : Val -> bool.
Variable applyFilter : FnId -> Val -> bool.
Variable applyCompare : FnId -> Val -> Val -> Z.
Variable maxArguments : nat.

Abbreviation new' := (new_DynArrayReducer isIterable applyFilter applyCompare maxArguments).

Lemma new_array (h : Heap) (l : loc) :
  new' h (VArr l) = (Ok (), mkWorld h (set_array0 (Some l) initial_fields) []).
Proof. done. Qed.

Lemma new_iterable (h : Heap) (items : list Val) :
  new' h (VIter items) =
  (Ok (), mkWorld (<[fresh (dom h) := items]> h)
            (set_array0 (Some (fresh (dom h))) initial_fields) []).
Proof. done. Qed.

(** X8. The constructor uses an array as the host array without copying
    it and leaves the heap alone; it copies any other iterable object
    into an array that did not exist before; without an argument the
    store stays absent.  In each case it returns normally with no filter,
    no comparator, no subscriber, the reversed flag cleared and no handler
    called. *)
Theorem constructor_uses_array_and_copies_iterable (h : Heap) :
  (∀ l, new' h (VArr l) =
        (Ok (), mkWorld h (set_array0 (Some l) initial_fields) [])) ∧
  (∀ items,
     new' h (VIter items) =
     (Ok (), mkWorld (<[fresh (dom h) := items]> h)
               (set_array0 (Some (fresh (dom h))) initial_fields) []) ∧
     h !! fresh (dom h) = None) ∧
  new' h VUndef = (Ok (), mkWorld h initial_fields []).
Proof.
  split_and!; try done. intros items. split; [done|]. apply fresh_not_in_heap.
Qed.

(** X9. A boolean, a number or a string is never accepted by the
    constructor, whatever the iterable check says of it: either the check
    refuses it, or the [in] test on a primitive throws.  Nothing is left
    behind. *)
Theorem constructor_rejects_every_primitive (h : Heap) (data : Val) :
  typeof data = TBoolean ∨ typeof data = TNumber ∨ typeof data = TString →
  ∃ e, new' h data = (Throw e, mkWorld h initial_fields []).
Proof.
  unfold new_DynArrayReducer, constructor.
  intros Hty. destruct data; simpl in *; try (by destruct Hty as [?|[?|?]]);
    destruct (isIterable _); simpl; by eexists.
Qed.

(** X10. A configuration object is checked attribute by attribute, in the
    order data, filters, sort: a [data] attribute that is given and not
    iterable, else a [filters] attribute that is given and not iterable,
    else a [sort] attribute that is given and no function makes the
    constructor throw the error of that attribute, and nothing is left
    behind. *)
Theorem constructor_checks_config_attributes (h : Heap) (fields : list (string * Val)) :
  is_Some (assoc "data" fields) ∨ is_Some (assoc "filters" fields) ∨
  is_Some (assoc "sort" fields) →
  let cfg := VObj fields in
  let ok_data := is_undefined (get_field "data" cfg) || isIterable (get_field "data" cfg) in
  let ok_filters :=
    is_undefined (get_field "filters" cfg) || isIterable (get_field "filters" cfg) in
  let ok_sort :=
    is_undefined (get_field "sort" cfg) || typeof_eqb (typeof (get_field "sort" cfg)) TFunction in
  (ok_data = false →
   new' h cfg =
   (Throw (TypeError "DynArrayReducer error (DataDynArray): 'data' attribute is not iterable."),
    mkWorld h initial_fields [])) ∧
  (ok_data = true → ok_filters = false →
   new' h cfg =
   (Throw (TypeError "DynArrayReducer error (DataDynArray): 'filters' attribute is not iterable."),
    mkWorld h initial_fields [])) ∧
  (ok_data = true → ok_filters = true → ok_sort = false →
   new' h cfg =
   (Throw (TypeError "DynArrayReducer error (DataDynArray): 'sort' attribute is not a function."),
    mkWorld h initial_fields [])).
Proof.
  intros Hkeys cfg ok_data ok_filters ok_sort. subst cfg ok_data ok_filters ok_sort.
  unfold new_DynArrayReducer, constructor, read_config, or_else, get_field.
  unfold_monad. simpl.
  destruct (assoc "data" fields) as [d|]; destruct (assoc "filters" fields) as [f|];
    destruct (assoc "sort" fields) as [s|]; simpl;
    try (by destruct Hkeys as [[? ?]|[[? ?]|[? ?]]]);
    repeat match goal with
           | |- context [is_undefined ?v] => destruct (is_undefined v); simpl
           | |- context [isIterable ?v] => destruct (isIterable v); simpl
           | |- context [typeof_eqb ?a ?b] => destruct (typeof_eqb a b); simpl
           end;
    split_and!; intros; done.
Qed.
(** X11. A configuration object whose [data] attribute is an iterable
    object that passes the check, and whose [filters] and [sort]
    attributes are absent or undefined, constructs the same reducer as
    that iterable passed directly. *)
Theorem constructor_config_with_data_only
    (h : Heap) (fields : list (string * Val)) (d : Val) :
  assoc "data" fields = Some d →
  get_field "filters" (VObj fields) = VUndef →
  get_field "sort" (VObj fields) = VUndef →
  isIterable d = true →
  Array_isArray d = true ∨ (∃ items, d = VIter items) →
  new' h (VObj fields) = new' h d.
Proof.
  intros Hd Hf Hs Hit Hobj.
  unfold new_DynArrayReducer, constructor, read_config, or_else. rewrite Hf, Hs.
  unfold get_field. unfold_monad. simpl. rewrite Hd. simpl. rewrite Hit. simpl.
  destruct Hobj as [Harr|[items ->]]; [by destruct d|done].
Qed.

(** X12. A reducer constructed from an array or another iterable object
    has nothing registered: one pass yields the items of the data in
    their order, the length is their number, and the reversed flag is
    cleared. *)
Theorem constructed_reducer_iterates_its_data (h : Heap) (data : Val) (items : list Val) :
  Array_isArray data = true ∨ (∃ xs, data = VIter xs) →
  spread h data = Ok items →
  let w := (new' h data).2 in
  (new' h data).1 = Ok () ∧
  iterator w = items ∧ get_length w = length items ∧ get_reversed w = false.
Proof.
  intros Hobj Hsp w.
  assert ((new' h data).1 = Ok () ∧ host_items w = items ∧
          this w = set_array0 (array0 (this w)) initial_fields) as (Hok & Hhost & Hthis).
  { subst w. destruct Hobj as [Harr|[xs ->]].
    - destruct data; try done. rewrite new_array. by simplify_eq/=.
    - rewrite new_iterable. unfold host_items. simpl in *.
      rewrite deref_insert_eq. by simplify_eq. }
  assert (filters (this w) = [] ∧ compareFn (this w) = None ∧ reversed (this w) = false)
    as (Hf & Hc & Hr) by (by rewrite Hthis).
  split; [done|]. rewrite inactive_pass, inactive_length by done.
  unfold get_reversed. by rewrite Hr, Hhost.
Qed.
End ConstructorCases.

(** ** Subscribers: round trips and notification *)

(** [subscribe] and [#updateSubscribers] of [DerivedArrayReducer.js] are
    the same code as those of [DynArrayReducer.ts], over the subscriber
    list of the derived reducer. *)

Lemma without_absent (h : FnId) (subs : list FnId) : h ∉ subs → without h subs = subs.
Proof.
  induction subs as [|s subs IH]; intros Hn; [done|].
  apply not_elem_of_cons in Hn as [Hne Hn]. unfold without in *. simpl.
  destruct (s =? h) eqn:E; [apply Nat.eqb_eq in E; congruence|].
  simpl. by rewrite IH.
Qed.

Lemma registrations_absent (h : FnId) (subs : list FnId) :
  h ∉ subs ↔ registrations h subs = 0.
Proof.
  unfold registrations. induction subs as [|s subs IH]; simpl.
  - split; [done|]. intros _. apply not_elem_of_nil.
  - rewrite not_elem_of_cons. destruct (s =? h) eqn:E.
    + apply Nat.eqb_eq in E. simpl. split; [intros [? _]; congruence|lia].
    + apply Nat.eqb_neq in E. rewrite IH. split; [by intros [_ ?]|by split; [congruence|]].
Qed.

Lemma without_middle (h : FnId) (l1 l2 : list FnId) :
  without h (l1 ++ h :: l2) = without h (l1 ++ l2).
Proof.
  unfold without. rewrite !List.filter_app. simpl. by rewrite Nat.eqb_refl.
Qed.

Lemma registrations_middle (h : FnId) (l1 l2 : list FnId) :
  registrations h (l1 ++ h :: l2) = S (registrations h (l1 ++ l2)).
Proof.
  unfold registrations. rewrite !List.filter_app, !length_app. simpl.
  rewrite Nat.eqb_refl. simpl. lia.
Qed.

(** One call of the unsubscribe function, on the subscriber list. *)
Lemma unsubscribe_step (h : FnId) (w : World) :
  let w' := (unsubscribe h w).2 in
  heap w' = heap w ∧ trace w' = trace w ∧
  this w' = set_subscriptions (subscriptions (this w')) (this w) ∧
  without h (subscriptions (this w')) = without h (subscriptions (this w)) ∧
  registrations h (subscriptions (this w')) = pred (registrations h (subscriptions (this w))).
Proof.
  intros w'. subst w'.
  destruct (decide (h ∈ subscriptions (this w))) as [Hin|Hn].
  - destruct (first_occurrence _ _ Hin) as (l1 & l2 & Hs & Hn).
    rewrite (unsubscribe_first h l1 l2) by done. simpl.
    rewrite Hs, without_middle, registrations_middle. by split_and!.
  - rewrite unsubscribe_absent by done. simpl.
    apply registrations_absent in Hn. rewrite Hn.
    split_and!; try done. by destruct (this w).
Qed.

(** X13. Subscribing a handler and calling the returned unsubscribe
    function at once calls the handler exactly once and changes neither
    the heap nor any other field.  When the handler was not registered
    before, the subscriber list is as it was; when it was, it is the
    earliest registration that goes, so the handler moves to the end of
    the list. *)
Theorem subscribe_then_unsubscribe (h : FnId) (w : World) :
  let w1 := (subscribe h w).2 in
  let w2 := (unsubscribe h w1).2 in
  heap w2 = heap w ∧
  (∃ view, trace w2 = trace w ++ [mkEvent h view]) ∧
  this w2 = set_subscriptions (subscriptions (this w2)) (this w) ∧
  (((h ∉ subscriptions (this w)) ∧ subscriptions (this w2) = subscriptions (this w)) ∨
   (∃ l1 l2, subscriptions (this w) = l1 ++ h :: l2 ∧ (h ∉ l1) ∧
             subscriptions (this w2) = l1 ++ l2 ++ [h])).
Proof.
  intros w1 w2. subst w1 w2. rewrite subscribe_run. simpl.
  destruct (decide (h ∈ subscriptions (this w))) as [Hin|Hn].
  - destruct (first_occurrence _ _ Hin) as (l1 & l2 & Hs & Hn).
    rewrite (unsubscribe_first h l1 (l2 ++ [h])); [|by simpl; rewrite Hs, <- app_assoc|done].
    simpl. split_and!; [done|by eexists|done|].
    right. exists l1, l2. by split_and!.
  - rewrite (unsubscribe_first h (subscriptions (this w)) []); [|done..].
    simpl. rewrite app_nil_r. split_and!; [done|by eexists|done|].
    left. by split.
Qed.

(** X14. A notification calls the registered handlers in subscription
    order, one call per registration, each with the reducer as it is, and
    changes neither the heap nor the reducer. *)
Theorem notification_calls_each_registration_in_order (w : World) :
  let w' := (updateSubscribers w).2 in
  (updateSubscribers w).1 = Ok () ∧ heap w' = heap w ∧ this w' = this w ∧
  ∃ events, trace w' = trace w ++ events ∧
            ev_handler <$> events = subscriptions (this w) ∧
            Forall (fun e => ev_view e = this w) events.
Proof.
  intros w'. subst w'. rewrite updateSubscribers_run. simpl.
  split_and!; try done. eexists. split; [done|]. split.
  - rewrite <- list_fmap_compose. simpl. apply list_fmap_id.
  - apply Forall_fmap, Forall_forall. by intros.
Qed.

Lemma unsubscribe_times_step (h : FnId) (n : nat) (w : World) :
  let w' := unsubscribe_times h n w in
  heap w' = heap w ∧ trace w' = trace w ∧
  this w' = set_subscriptions (subscriptions (this w')) (this w) ∧
  without h (subscriptions (this w')) = without h (subscriptions (this w)) ∧
  registrations h (subscriptions (this w')) = registrations h (subscriptions (this w)) - n.
Proof.
  revert w. induction n as [|n IH]; intros w; simpl.
  - split_and!; try done; [by destruct (this w)|lia].
  - destruct (IH (unsubscribe h w).2) as (Hh & Ht & Hthis & Hw & Hr).
    destruct (unsubscribe_step h w) as (Hh' & Ht' & Hthis' & Hw' & Hr').
    split_and!.
    + by rewrite Hh.
    + by rewrite Ht.
    + rewrite Hthis at 1. by rewrite Hthis'.
    + by rewrite Hw.
    + rewrite Hr, Hr'. lia.
Qed.

(** X15. Calling the unsubscribe function of a handler as many times as
    the handler is registered, or more often, removes every registration
    of it and nothing else: the other handlers stay, in their order, and
    the heap, the trace and the other fields are untouched. *)
Theorem unsubscribe_times_removes_all (h : FnId) (n : nat) (w : World) :
  registrations h (subscriptions (this w)) ≤ n →
  let w' := unsubscribe_times h n w in
  subscriptions (this w') = without h (subscriptions (this w)) ∧
  (h ∉ subscriptions (this w')) ∧
  this w' = set_subscriptions (subscriptions (this w')) (this w) ∧
  heap w' = heap w ∧ trace w' = trace w.
Proof.
  intros Hn w'. destruct (unsubscribe_times_step h n w) as (Hh & Ht & Hthis & Hw & Hr).
  fold w' in Hh, Ht, Hthis, Hw, Hr.
  assert (h ∉ subscriptions (this w')) as Hgone.
  { apply registrations_absent. rewrite Hr. lia. }
  split_and!; try done. rewrite <- Hw. symmetry. by apply without_absent.
Qed.

(** ** The state the facade keeps *)

Lemma map_retained (p : Val → bool) (pre xs : list Val) :
  (fun i => nth_val (pre ++ xs) i) <$>
    List.filter (fun i => p (nth_val (pre ++ xs) i)) (seq (length pre) (length xs))
  = List.filter p xs.
Proof.
  revert pre. induction xs as [|x xs IH]; intros pre; [done|]. simpl.
  assert (nth_val (pre ++ x :: xs) (length pre) = x) as Hx.
  { unfold nth_val. by rewrite list_lookup_middle. }
  specialize (IH (pre ++ [x])).
  rewrite <- app_assoc, length_app, Nat.add_1_r in IH. simpl in IH.
  rewrite Hx. destruct (p x); [|by rewrite IH].
  by rewrite fmap_cons, Hx, IH.
Qed.

Lemma nth_val_in_range (xs : list Val) (i : nat) : i < length xs → nth_val xs i ∈ xs.
Proof.
  intros Hi. unfold nth_val. destruct (lookup_lt_is_Some_2 xs i Hi) as [x Hx].
  rewrite Hx. simpl. by eapply list_elem_of_lookup_2.
Qed.

Section SyncFacts.
Variable isIterable : Val -> bool.
Variable applyFilter : FnId -> Val -> bool.
Variable applyCompare : FnId -> Val -> Val -> Z.
Variable maxArguments : nat.

Abbreviation setData' := (setData isIterable applyFilter applyCompare maxArguments).
Abbreviation update' := (Indexer_update applyFilter applyCompare).
Abbreviation new' := (new_DynArrayReducer isIterable applyFilter applyCompare maxArguments).
Abbreviation in_sync' := (in_sync applyFilter applyCompare).

Lemma update_in_sync (force : bool) (w : World) :
  index_reversed (this w) = reversed (this w) →
  (update' force w).1 = Ok () ∧ in_sync' (update' force w).2.
Proof. intros Hflags. rewrite Indexer_update_run. by repeat split. Qed.

Lemma in_sync_subscriptions (w : World) (subs : list FnId) (t : list Event) :
  in_sync' w → in_sync' (mkWorld (heap w) (set_subscriptions subs (this w)) t).
Proof. by intros [? ?]. Qed.

(** Every way [setData] returns normally ends in a recompute, on a state
    with the flags of the state it started from. *)
Lemma setData_ends_in_update (w : World) (data replace : Val) :
  (setData' data replace w).1 = Ok () →
  ∃ w0, setData' data replace w = update' true w0 ∧
        index_reversed (this w0) = index_reversed (this w) ∧
        reversed (this w0) = reversed (this w).
Proof.
  unfold setData.
  destruct (negb (is_null data) && negb (isIterable data)); [done|].
  destruct replace as [| |b| | | | | | |]; try done; simpl; unfold_monad;
    (destruct (array0 (this w)) as [l|]; [try destruct b|]);
    destruct (truthy data); simpl;
    try (intros _; eexists; split; [reflexivity|done]);
    unfold spread_arguments;
    destruct data; simpl; unfold_monad; unfold alloc; simpl; try done;
    repeat match goal with
           | |- context [if ?c then _ else _] => destruct c; simpl; try done
           end;
    intros _; eexists; (split; [reflexivity|done]).
Qed.

Lemma install_keeps_fields (d : Val) (w w' : World) (o : Outcome unit) :
  install d w = (o, w') →
  this w' = set_array0 (array0 (this w')) (this w) ∧ trace w' = trace w.
Proof.
  destruct d; simpl; unfold_monad; unfold alloc; simpl; intros [= <- <-]; simpl;
    split; try done; by destruct (this w).
Qed.

Lemma constructor_tail_in_sync (d f s : Val) (w : World) :
  filters (this w) = [] → compareFn (this w) = None → index (this w) = None →
  index_reversed (this w) = reversed (this w) →
  (constructor_tail applyFilter applyCompare maxArguments d f s w).1 = Ok () →
  in_sync' (constructor_tail applyFilter applyCompare maxArguments d f s w).2.
Proof.
  intros Hf Hc Hi Hflags. unfold constructor_tail.
  destruct (when (truthy d) (install d) w) as [o1 w1] eqn:H1.
  assert (this w1 = set_array0 (array0 (this w1)) (this w)) as Hw1.
  { unfold when in H1. destruct (truthy d).
    - by apply install_keeps_fields in H1 as [? _].
    - unfold_monad. injection H1 as <- <-. by destruct (this w). }
  assert (in_sync' w1) as [Hs1 Hs1'].
  { split; unfold recomputed, Indexer_isActive; rewrite Hw1; simpl; [done|].
    by rewrite Hi, Hf, Hc. }
  unfold mbind, M_bind. rewrite H1. destruct o1 as [[]|]; [|done].
  destruct (truthy f), (truthy s); unfold when, AdapterFilters_add, AdapterSort_set;
    unfold_monad; simpl;
    repeat match goal with
           | |- context [spread_arguments ?m ?h ?v] =>
               destruct (spread_arguments m h v); simpl; try done
           | |- context [filter_entries ?v] => destruct (filter_entries v); simpl; try done
           end;
    rewrite ?Indexer_update_run; simpl;
    try (destruct s; simpl; try done; rewrite ?Indexer_update_run; simpl);
    intros _; by split.
Qed.

(** The constructor reads its argument and goes on as its tail, or
    throws. *)
Lemma constructor_ok_run (data : Val) (w : World) :
  (constructor isIterable applyFilter applyCompare maxArguments data w).1 = Ok () →
  ∃ d f s, constructor isIterable applyFilter applyCompare maxArguments data w
           = constructor_tail applyFilter applyCompare maxArguments d f s w.
Proof.
  unfold constructor, read_config, or_else.
  unfold mbind, M_bind, mret, M_ret, throw, lift.
  repeat (match goal with
          | |- context [if ?c then _ else _] => destruct c
          | |- context [match has_iterator_key ?v with _ => _ end] =>
              destruct (has_iterator_key v) as [[]|]
          | |- context [match has_key ?k ?v with _ => _ end] =>
              destruct (has_key k v) as [[]|]
          end; cbv beta iota);
    try done; intros _; eexists _, _, _; reflexivity.
Qed.
Lemma in_sync_same_view (w w' : World) (subs : list FnId) :
  heap w' = heap w → this w' = set_subscriptions subs (this w) →
  in_sync' w → in_sync' w'.
Proof.
  intros Hh Ht [Hflags Hidx]. unfold in_sync, recomputed, host_items in *.
  rewrite Hh, Ht. simpl. by split.
Qed.

(** X16. The calls of the facade leave the view in sync: after a
    construction that returns normally, after a [setData] that returns
    normally on a reducer whose two reversed flags agree, and after any
    boolean assignment to [reversed], the two reversed flags agree and
    the stored ordering is the one a recompute gives for the data,
    filters and comparator in place; [subscribe], the unsubscribe
    function and a notification keep a view in sync. *)
Theorem facade_calls_leave_view_in_sync :
  (∀ h data, (new' h data).1 = Ok () → in_sync' (new' h data).2) ∧
  (∀ w data replace,
     index_reversed (this w) = reversed (this w) →
     (setData' data replace w).1 = Ok () → in_sync' (setData' data replace w).2) ∧
  (∀ w b, in_sync' (set_reversed applyFilter applyCompare (VBool b) w).2) ∧
  (∀ w h, in_sync' w →
     in_sync' (subscribe h w).2 ∧ in_sync' (unsubscribe h w).2 ∧
     in_sync' (updateSubscribers w).2).
Proof.
  split_and!.
  - intros h data Hok. unfold new_DynArrayReducer in *.
    destruct (constructor_ok_run data _ Hok) as (d & f & s & Heq).
    rewrite Heq in *. by apply constructor_tail_in_sync.
  - intros w data replace Hflags Hok.
    destruct (setData_ends_in_update w data replace Hok) as (w0 & -> & Hi & Hr).
    apply update_in_sync. by rewrite Hi, Hr.
  - intros w b. rewrite set_reversed_run. by split.
  - intros w h Hs. split_and!.
    + rewrite subscribe_run. by apply in_sync_subscriptions.
    + destruct (unsubscribe_step h w) as (Hh & _ & Ht & _).
      by eapply in_sync_same_view.
    + rewrite updateSubscribers_run. by destruct Hs.
Qed.

Lemma rebuild_nil (fs : list FnId) (c : option FnId) :
  rebuild applyFilter applyCompare [] fs c = [].
Proof. by destruct c. Qed.

Lemma filter_all {A} (l : list A) : List.filter (fun _ => true) l = l.
Proof. induction l as [|x l IH]; [done|]. simpl. by rewrite IH. Qed.

Lemma map_retained_all (xs : list Val) (fs : list FnId) :
  (fun i => nth_val xs i) <$> retained applyFilter xs fs
  = List.filter (accepts applyFilter fs) xs.
Proof. apply (map_retained (accepts applyFilter fs) [] xs). Qed.

(** The forward pass of a view in sync, in terms of the data alone. *)
Lemma forward_pass_in_sync (w : World) :
  in_sync' w →
  forward_pass (heap w) (this w) =
  (fun i => nth_val (host_items w) i) <$>
    rebuild applyFilter applyCompare (host_items w) (filters (this w)) (compareFn (this w)).
Proof.
  intros [_ Hidx]. unfold forward_pass. unfold recomputed in Hidx.
  unfold host_items in *.
  destruct (array0 (this w)) as [l|] eqn:Ha; [|by rewrite rebuild_nil].
  destruct (length (deref (heap w) l) =? 0) eqn:Hlen.
  - apply length_zero_nil in Hlen. by rewrite Hlen, rebuild_nil.
  - destruct (Indexer_isActive (this w)) eqn:Hact; [by rewrite Hidx|].
    apply inactive_iff in Hact as [-> ->]. simpl.
    rewrite map_retained_all. symmetry. apply filter_all.
Qed.

Lemma iterator_in_sync (w : World) :
  in_sync' w →
  iterator w = if reversed (this w)
               then rev (forward_pass (heap w) (this w))
               else forward_pass (heap w) (this w).
Proof.
  intros [Hflags _]. destruct w as [h r t]. by apply iterator_direction.
Qed.

Lemma get_length_in_sync (w : World) :
  in_sync' w → get_length w = length (forward_pass (heap w) (this w)).
Proof.
  intros [_ Hidx]. unfold get_length, forward_pass, IndexerAPI_length.
  unfold recomputed, host_items in Hidx.
  destruct (Indexer_isActive (this w)) eqn:Hact; rewrite ?Hidx;
    destruct (array0 (this w)) as [l|] eqn:Ha; simpl; try done.
  - destruct (length (deref (heap w) l) =? 0) eqn:Hlen.
    + apply length_zero_nil in Hlen. by rewrite Hlen, rebuild_nil.
    + by rewrite length_fmap.
  - by rewrite rebuild_nil.
  - destruct (length (deref (heap w) l) =? 0) eqn:Hlen; [|done].
    apply length_zero_nil in Hlen. by rewrite Hlen.
Qed.

(** X17. On a view in sync the length getter gives the number of
    elements one pass yields, and every element a pass yields is an
    element of the backing array: nothing is made up and nothing read
    past the end. *)
Theorem in_sync_length_counts_the_pass (w : World) :
  in_sync' w →
  length (iterator w) = get_length w ∧
  ∀ v, v ∈ iterator w → v ∈ host_items w.
Proof.
  intros Hs. rewrite iterator_in_sync, get_length_in_sync by done. split.
  - destruct (reversed (this w)); by rewrite ?length_rev.
  - intros v Hv.
    assert (v ∈ forward_pass (heap w) (this w)) as Hv'.
    { destruct (reversed (this w)); [|done].
      apply list_elem_of_In, in_rev in Hv. by apply list_elem_of_In. }
    rewrite forward_pass_in_sync in Hv' by done.
    apply list_elem_of_fmap in Hv' as (i & -> & Hi).
    apply nth_val_in_range.
    pose proof (rebuild_in_range applyFilter applyCompare (host_items w)
                  (filters (this w)) (compareFn (this w))) as Hrange.
    rewrite Forall_forall in Hrange. by apply Hrange.
Qed.

(** X18. On a view in sync without a comparator, one pass yields exactly
    the elements of the backing array that every filter accepts, in
    storage order, or in reverse storage order when the reversed flag is
    set. *)
Theorem in_sync_pass_without_comparator (w : World) :
  in_sync' w → compareFn (this w) = None →
  iterator w = if reversed (this w)
               then rev (visible applyFilter w)
               else visible applyFilter w.
Proof.
  intros Hs Hc. rewrite iterator_in_sync, forward_pass_in_sync by done.
  rewrite Hc. simpl. by rewrite map_retained_all.
Qed.

(** X19. On a view in sync with a comparator, one pass yields the
    elements every filter accepts, each as often as the array holds it;
    when the reversed flag is cleared and the comparator orders the
    elements of the array consistently, no element of the pass sorts
    after a later one. *)
Theorem in_sync_pass_with_comparator (w : World) (c : FnId) :
  in_sync' w → compareFn (this w) = Some c →
  iterator w ≡ₚ visible applyFilter w ∧
  (reversed (this w) = false →
   consistent_on (compare_at applyCompare c (host_items w))
     (fun i => i < length (host_items w)) →
   StronglySorted (fun a b => (applyCompare c a b <= 0)%Z) (iterator w)).
Proof.
  intros Hs Hc. rewrite iterator_in_sync, forward_pass_in_sync by done.
  rewrite Hc. simpl. split.
  - assert ((fun i => nth_val (host_items w) i) <$>
              stable_sort (compare_at applyCompare c (host_items w))
                (retained applyFilter (host_items w) (filters (this w)))
            ≡ₚ visible applyFilter w) as Hperm.
    { rewrite stable_sort_perm. by rewrite map_retained_all. }
    destruct (reversed (this w)); [|done].
    by rewrite <- Permutation_rev.
  - intros -> Hcons.
    eapply (StronglySorted_fmap _
              (fun i j => (compare_at applyCompare c (host_items w) i j <= 0)%Z)).
    + done.
    + eapply stable_sort_sorted; [done|].
      apply (rebuild_in_range applyFilter applyCompare _ _ None).
Qed.
End SyncFacts.

(** * Concrete runs of the further properties *)

Module Runs.
Import Fixture Cases.

Lemma setData_installs_reference_or_fresh_copy_witness :
  (setData isIterableObject sampleFilter sampleCompare engineLimit (VIter [VNum 7]) (VBool true) w123).1
  = Ok ().
Proof.
  destruct (setData_installs_reference_or_fresh_copy isIterableObject sampleFilter
              sampleCompare engineLimit w123 (VIter [VNum 7]) [VNum 7] true
              (or_intror eq_refl) eq_refl eq_refl eq_refl) as (Hok & _).
  exact Hok.
Defined.

Lemma setData_falsy_data_detaches_array_witness :
  let w' := (setData isIterableObject sampleFilter sampleCompare engineLimit VNull (VBool false) w123).2 in
  get_data w' = None ∧ heap w' = heap w123.
Proof.
  destruct (setData_falsy_data_detaches_array isIterableObject sampleFilter sampleCompare engineLimit
              w123 1%positive VNull eq_refl (or_introl eq_refl) eq_refl)
    as (_ & Hstore & Hheap & _).
  by split.
Defined.

Lemma setData_with_host_array_empties_it_witness :
  deref (heap (setData isIterableObject sampleFilter sampleCompare engineLimit (VArr 1%positive)
                 (VBool false) w123).2) 1%positive = [].
Proof.
  destruct (setData_with_host_array_empties_it isIterableObject sampleFilter sampleCompare engineLimit
              w123 1%positive eq_refl eq_refl) as (_ & _ & Hempty & _).
  exact Hempty.
Defined.

Lemma setData_failed_push_leaves_array_empty_witness :
  setData isIterableLoose sampleFilter sampleCompare engineLimit (VObj []) (VBool false) w123
  = (Throw (TypeError "value is not iterable"),
     with_heap (<[1%positive := []]> (heap w123)) w123).
Proof.
  apply (setData_failed_push_leaves_array_empty isIterableLoose sampleFilter sampleCompare engineLimit
           w123 1%positive (VObj [])); reflexivity.
Defined.

Lemma setData_notifies_each_subscriber_once_witness :
  ev_handler <$>
    trace (setData isIterableObject sampleFilter sampleCompare engineLimit (VIter [VNum 7]) VUndef
             w123_subs).2
  = [3; 5; 3].
Proof.
  destruct (setData_notifies_each_subscriber_once isIterableObject sampleFilter sampleCompare engineLimit
              w123_subs (VIter [VNum 7]) VUndef [VNum 7]
              (or_intror (conj eq_refl eq_refl)) (or_introl eq_refl)) as (_ & Htrace & _).
  { right. right. vm_compute. lia. }
  rewrite Htrace. reflexivity.
Defined.

Lemma setData_then_iterate_witness :
  iterator (setData isIterableObject sampleFilter sampleCompare engineLimit (VIter [VNum 7; VNum 8])
              (VBool false) w123).2 = [VNum 7; VNum 8].
Proof.
  destruct (setData_then_iterate isIterableObject sampleFilter sampleCompare engineLimit w123
              (VIter [VNum 7; VNum 8]) [VNum 7; VNum 8] false
              eq_refl eq_refl eq_refl eq_refl eq_refl) as [Hpass _].
  - intros l _ _. split; [reflexivity|]. vm_compute. lia.
  - exact Hpass.
Defined.

Lemma constructor_rejects_every_primitive_witness :
  ∃ e, new_DynArrayReducer isIterableObject sampleFilter sampleCompare engineLimit ∅ (VStr "abc")
       = (Throw e, mkWorld ∅ initial_fields []).
Proof.
  apply (constructor_rejects_every_primitive isIterableObject sampleFilter sampleCompare engineLimit
           ∅ (VStr "abc")).
  right. by right.
Defined.

Lemma constructor_checks_config_attributes_witness :
  new_DynArrayReducer isIterableObject sampleFilter sampleCompare engineLimit (heap w123) config_bad_sort
  = (Throw (TypeError "DynArrayReducer error (DataDynArray): 'sort' attribute is not a function."),
     mkWorld (heap w123) initial_fields []).
Proof.
  destruct (constructor_checks_config_attributes isIterableObject sampleFilter sampleCompare engineLimit
              (heap w123) [("data", VArr 1%positive); ("sort", VNum 1)]) as (_ & _ & Hsort).
  - left. by eexists.
  - by apply Hsort.
Defined.

Lemma constructor_config_with_data_only_witness :
  new_DynArrayReducer isIterableObject sampleFilter sampleCompare engineLimit (heap w123) config_data
  = new_DynArrayReducer isIterableObject sampleFilter sampleCompare engineLimit (heap w123)
      (VArr 1%positive).
Proof.
  apply (constructor_config_with_data_only isIterableObject sampleFilter sampleCompare engineLimit
           (heap w123) [("data", VArr 1%positive)] (VArr 1%positive));
    try reflexivity. by left.
Defined.

Lemma constructed_reducer_iterates_its_data_witness :
  iterator (new_DynArrayReducer isIterableObject sampleFilter sampleCompare engineLimit (heap w123)
              (VArr 1%positive)).2 = [VNum 1; VNum 2; VNum 3].
Proof.
  destruct (constructed_reducer_iterates_its_data isIterableObject sampleFilter sampleCompare engineLimit
              (heap w123) (VArr 1%positive) [VNum 1; VNum 2; VNum 3]
              (or_introl eq_refl) eq_refl) as (_ & Hpass & _).
  exact Hpass.
Defined.

Lemma unsubscribe_times_removes_all_witness :
  subscriptions (this (unsubscribe_times 3 2 w123_subs)) = [5].
Proof.
  destruct (unsubscribe_times_removes_all 3 2 w123_subs) as (Hsubs & _).
  - vm_compute. lia.
  - exact Hsubs.
Defined.

Lemma facade_calls_leave_view_in_sync_witness :
  in_sync sampleFilter sampleCompare
    (setData isIterableObject sampleFilter sampleCompare engineLimit (VIter [VNum 7]) (VBool false) w123).2.
Proof.
  apply (proj1 (proj2 (facade_calls_leave_view_in_sync isIterableObject sampleFilter
                         sampleCompare engineLimit)) w123 (VIter [VNum 7]) (VBool false));
    vm_compute; reflexivity.
Defined.

Lemma w312_sorted_in_sync : in_sync sampleFilter sampleCompare w312_sorted.
Proof. by split. Qed.

Lemma in_sync_length_counts_the_pass_witness :
  length (iterator w312_sorted) = get_length w312_sorted.
Proof.
  apply (in_sync_length_counts_the_pass sampleFilter sampleCompare w312_sorted).
  apply w312_sorted_in_sync.
Defined.

Lemma in_sync_pass_without_comparator_witness :
  iterator w123_even = [VNum 2].
Proof.
  rewrite (in_sync_pass_without_comparator sampleFilter sampleCompare w123_even);
    [reflexivity|by split|reflexivity].
Defined.

Lemma in_sync_pass_with_comparator_witness :
  StronglySorted (fun a b => (sampleCompare 0 a b <= 0)%Z) (iterator w312_sorted).
Proof.
  apply (in_sync_pass_with_comparator sampleFilter sampleCompare w312_sorted 0);
    [apply w312_sorted_in_sync|reflexivity|reflexivity|apply Sample.sampleCompare_consistent].
Defined.

End Runs.
